(** * A shallow embedding of [pp_highlighting.pp_highlighter]

    The Python module couples a pyparsing grammar to a capture table
    ([PPHighlighter._fragments], a dict from start offsets to
    [(style, text)] pairs).  The grammar elements are modelled as state
    passing functions over that table (the dict is an instance attribute
    mutated by parse actions, and its mutations survive exceptions), the
    scan loop [_scan_string] and the reconstruction loop of [_highlight]
    as step functions run on fuel (both are unbounded [while] loops). *)

From Stdlib Require Import Ascii String Lia.
From stdpp Require Import base gmap list sorting strings.

Open Scope string_scope.

(** stdpp makes [String.append] opaque to [simpl]; the proofs below
    compute with it. *)
#[local] Arguments String.append : simpl nomatch.

(** ** Python values *)

(** Exceptions raised by grammar code: pyparsing's own
    [ParseBaseException] family, or any other [Exception] subclass
    (its type name and its message). *)
Inductive exn :=
  | ParseBase (name : string)
  | Other (name msg : string).

Definition is_parse_base (e : exn) : bool :=
  match e with ParseBase _ => true | Other _ _ => false end.

(** A computation that returns a value or raises. *)
Inductive res (A : Type) :=
  | Ok (a : A)
  | Raise (e : exn).
Arguments Ok {A} a.
Arguments Raise {A} e.

(** Styles: a prompt_toolkit style string, or a Pygments token given by
    its path ([Token.Name.Builtin] is [["Name"; "Builtin"]]). *)
Inductive style :=
  | SStr (st : string)
  | SToken (path : list string).

(** A capture: the style and the text [s[loc:end]]. *)
Abbreviation capture := (style * string)%type.

(** [self._fragments]: start offset |-> capture. *)
Abbreviation ctab := (gmap nat capture).

(** Python's [s[a:b]] for [0 <= a], [0 <= b]. *)
Definition slice (s : string) (a b : nat) : string :=
  substring a (b - a) s.

(** ** The state-and-exception monad of grammar code

    A grammar call reads and writes the capture table; a raise keeps the
    writes made before it (dict mutation is not undone). *)
Definition M (A : Type) := ctab -> res A * ctab.

Definition ret {A} (a : A) : M A := fun t => (Ok a, t).
Definition raise {A} (e : exn) : M A := fun t => (Raise e, t).
Definition bind {A B} (m : M A) (k : A -> M B) : M B :=
  fun t => match m t with
           | (Ok a, t') => k a t'
           | (Raise e, t') => (Raise e, t')
           end.

Notation "x <-- m ;; k" := (bind m (fun x => k))
  (at level 100, m at next level, right associativity).

(** ** Parser elements

    Tokens of a parse result: matched strings, and the end offset that
    [Locator.parseImpl] appends. *)
Inductive token :=
  | TStr (t : string)
  | TLoc (n : nat).

Record element := Element {
  (** [preParse(instring, loc)]: ignorables and whitespace skipping *)
  pre_parse : string -> nat -> M nat;
  (** [parseImpl] followed by the element's parse actions, i.e.
      [_parse(instring, loc, doActions=True, callPreParse=False)] *)
  parse_body : string -> nat -> M (nat * list token)
}.

(** [ParserElement._parse(instring, loc, doActions, callPreParse)]. *)
Definition parse (e : element) (s : string) (loc : nat) (callPreParse : bool)
    : M (nat * list token) :=
  pre <-- (if callPreParse then pre_parse e s loc else ret loc) ;;
  parse_body e s pre.

(** [ParserElement.DEFAULT_WHITE_CHARS = " \n\t\r"]. *)
Definition default_white : list ascii :=
  [" "%char; "010"%char; "009"%char; "013"%char].

Fixpoint skip_white (wt : list ascii) (s : string) (loc : nat) (fuel : nat)
    : nat :=
  match fuel with
  | O => loc
  | S f =>
      match String.get loc s with
      | Some c => if decide (c ∈ wt) then skip_white wt s (S loc) f else loc
      | None => loc
      end
  end.

(** The default [preParse] of an element without ignore expressions:
    [while loc < len(instring) and instring[loc] in wt: loc += 1]. *)
Definition white_pre_parse (skipWhitespace : bool) (wt : list ascii)
    (s : string) (loc : nat) : M nat :=
  ret (if skipWhitespace then skip_white wt s loc (String.length s) else loc).

(** [list.pop()] on the token list, expecting the appended end offset. *)
Definition pop_loc (toks : list token) : option (list token * nat) :=
  match last toks with
  | Some (TLoc n) => Some (removelast toks, n)
  | _ => None
  end.

(** [Locator(expr)] with the parse action of [PPHighlighter.styler]:
<<
    def parseImpl(self, instring, loc, doActions=True):
        end_loc, toks = self.expr._parse(instring, loc, doActions, False)
        toks.append(end_loc)
        return end_loc, toks

    def action(s, loc, toks):
        self._fragments[loc] = (style, s[loc:toks.pop()])
    return Locator(expr).setParseAction(action)
>>
    A fresh [Locator] has the default [preParse] (default white space,
    no ignore expressions).  The action mutates [toks] in place and
    returns [None], so the tokens after the action are [toks] without
    their last element. *)
Definition styler (st : style) (expr : element) : element := {|
  pre_parse := white_pre_parse true default_white;
  parse_body := fun s loc =>
    r <-- parse expr s loc false ;;
    let '(end_loc, toks) := r in
    let toks' := (toks ++ [TLoc end_loc])%list in
    match pop_loc toks' with
    | Some (toks'', e) =>
        fun t => (Ok (end_loc, toks''), <[loc := (st, slice s loc e)]> t)
    | None => raise (Other "TypeError" "slice indices must be integers")
    end
|}.

(** ** [PPHighlighter._scan_string]
<<
        loc = 0
        preloc = None
        pp.ParserElement.resetCache()
        while loc <= len(s):
            try:
                preloc = self._parser.preParse(s, loc)
                nextloc, _ = self._parser._parse(s, preloc, callPreParse=False)
            except Exception as err:
                if preloc is None:
                    raise
                loc = preloc + 1
                if not isinstance(err, pp.ParseBaseException):
                    msg = 'Exception during parsing: {}: {}'
                    warn(msg.format(type(err).__name__, err), RuntimeWarning)
            else:
                loc = nextloc if nextloc > loc else preloc + 1
>>
    The packrat cache is not modelled (it is reset before the loop and
    only memoises).  The warnings emitted through [warn] are collected in
    [sc_warnings], in order. *)
Record scan_state := ScanState {
  sc_loc : nat;
  sc_preloc : option nat;
  sc_tab : ctab;
  sc_warnings : list string
}.

(** One turn of a [while] loop: go on, leave the loop, or raise. *)
Inductive step_result (S : Type) :=
  | Next (st : S)
  | Done (st : S)
  | Abort (e : exn).
Arguments Next {S} st.
Arguments Done {S} st.
Arguments Abort {S} e.

Definition warning_of (e : exn) : list string :=
  match e with
  | ParseBase _ => []
  | Other name msg => ["Exception during parsing: " ++ name ++ ": " ++ msg]
  end.

(** The [except Exception as err:] clause. *)
Definition scan_except (e : exn) (preloc : option nat) (t : ctab)
    (ws : list string) : step_result scan_state :=
  match preloc with
  | None => Abort e
  | Some p => Next (ScanState (S p) preloc t (ws ++ warning_of e)%list)
  end.

Definition scan_step (g : element) (s : string) (st : scan_state)
    : step_result scan_state :=
  if Nat.leb (sc_loc st) (String.length s) then
    match pre_parse g s (sc_loc st) (sc_tab st) with
    | (Raise e, t1) => scan_except e (sc_preloc st) t1 (sc_warnings st)
    | (Ok preloc, t1) =>
        match parse g s preloc false t1 with
        | (Raise e, t2) => scan_except e (Some preloc) t2 (sc_warnings st)
        | (Ok (nextloc, _), t2) =>
            Next (ScanState (if Nat.ltb (sc_loc st) nextloc then nextloc else S preloc)
                            (Some preloc) t2 (sc_warnings st))
        end
    end
  else Done st.

(** Running a loop body for at most [fuel] turns; [None] when the fuel
    runs out. *)
Fixpoint run {S : Type} (step : S -> step_result S) (fuel : nat) (st : S)
    : option (res S) :=
  match fuel with
  | O => None
  | Datatypes.S n =>
      match step st with
      | Next st' => run step n st'
      | Done st' => Some (Ok st')
      | Abort e => Some (Raise e)
      end
  end.

Definition scan_init : scan_state := ScanState 0 None ∅ [].

Definition scan_string (fuel : nat) (g : element) (s : string)
    : option (res scan_state) :=
  run (scan_step g s) fuel scan_init.

(** ** The reconstruction loop of [PPHighlighter._highlight]
<<
        locs = sorted(self._fragments)
        locs.append(len(s))
        i = 0
        loc = 0
        fragments = FormattedText()
        while loc < len(s):
            fragment = self._fragments.get(loc)
            if fragment:
                fragments.append(fragment)
                loc += len(fragment[1])
                i += 1
            else:
                fragments.append((default_style, s[loc:locs[i]]))
                loc = locs[i]
>>
    A stored fragment is a 2-tuple, so [if fragment:] holds exactly when
    [get] finds one. *)
Record walk_state := WalkState {
  w_i : nat;
  w_loc : nat;
  w_out : list capture
}.

(** [sorted(self._fragments)] *)
Definition capture_keys (t : ctab) : list nat :=
  merge_sort le ((map_to_list t).*1).

Definition sorted_locs (t : ctab) (s : string) : list nat :=
  (capture_keys t ++ [String.length s])%list.

Definition walk_step (default_style : style) (s : string) (t : ctab)
    (locs : list nat) (st : walk_state) : step_result walk_state :=
  if Nat.ltb (w_loc st) (String.length s) then
    match t !! w_loc st with
    | Some fragment =>
        Next (WalkState (S (w_i st)) (w_loc st + String.length fragment.2)
                        (w_out st ++ [fragment])%list)
    | None =>
        match locs !! w_i st with
        | Some b =>
            Next (WalkState (w_i st) b
                   (w_out st ++ [(default_style, slice s (w_loc st) b)])%list)
        | None => Abort (Other "IndexError" "list index out of range")
        end
    end
  else Done st.

Definition walk_init : walk_state := WalkState 0 0 [].

Definition default_style (pygments_styles : bool) : style :=
  if pygments_styles then SToken ["Text"] else SStr "".

(** [PPHighlighter._highlight] (the [str] type check is the Rocq type of
    [s]); [fuel] bounds each of the two loops. *)
Definition highlight_raw (fuel : nat) (pygments_styles : bool) (g : element)
    (s : string) : option (res (list capture)) :=
  match scan_string fuel g s with
  | None => None
  | Some (Raise e) => Some (Raise e)
  | Some (Ok st) =>
      let t := sc_tab st in
      match run (walk_step (default_style pygments_styles) s t (sorted_locs t s))
                fuel walk_init with
      | None => None
      | Some (Raise e) => Some (Raise e)
      | Some (Ok w) => Some (Ok (w_out w))
      end
  end.

(** ** [PPHighlighter.highlight]

    In Pygments mode the fragments go through
    [to_formatted_text(PygmentsTokens(fragments))], which maps each
    [(token, text)] to [('class:' + pygments_token_to_classname(token), text)]
    with [pygments_token_to_classname(token) = '.'.join(('pygments',) + token).lower()];
    a string style there fails on [tuple + str]. *)
Definition ascii_lower (c : ascii) : ascii :=
  let n := nat_of_ascii c in
  if Nat.leb 65 n && Nat.leb n 90 then ascii_of_nat (n + 32) else c.

Fixpoint str_lower (s : string) : string :=
  match s with
  | EmptyString => EmptyString
  | String c r => String (ascii_lower c) (str_lower r)
  end.

(** [sep.join(xs)] *)
Fixpoint join (sep : string) (xs : list string) : string :=
  match xs with
  | [] => ""
  | [x] => x
  | x :: r => x ++ sep ++ join sep r
  end.

Definition pygments_token_to_classname (path : list string) : string :=
  str_lower (join "." ("pygments" :: path)).

Definition pt_fragment (fr : capture) : res capture :=
  match fr.1 with
  | SToken p => Ok (SStr ("class:" ++ pygments_token_to_classname p), fr.2)
  | SStr _ => Raise (Other "TypeError" "can only concatenate tuple to tuple")
  end.

Fixpoint map_res {A B} (f : A -> res B) (xs : list A) : res (list B) :=
  match xs with
  | [] => Ok []
  | x :: r =>
      match f x with
      | Raise e => Raise e
      | Ok y => match map_res f r with
                | Raise e => Raise e
                | Ok ys => Ok (y :: ys)
                end
      end
  end.

Definition highlight (fuel : nat) (pygments_styles : bool) (g : element)
    (s : string) : option (res (list capture)) :=
  match highlight_raw fuel pygments_styles g s with
  | Some (Ok frs) =>
      if pygments_styles then Some (map_res pt_fragment frs) else Some (Ok frs)
  | r => r
  end.

(** The texts of a fragment list, concatenated. *)
Definition texts (frs : list capture) : string :=
  fold_right (fun fr acc => fr.2 ++ acc) "" frs.

(** ** [PPHighlighter.highlight_html] *)

(** [str.isspace] on a character (code points up to 255). *)
Definition py_isspace (c : ascii) : bool :=
  bool_decide (nat_of_ascii c ∈ [9; 10; 11; 12; 13; 28; 29; 30; 31; 32; 133; 160]).

Fixpoint split_aux (s : string) (cur : string) : list string :=
  match s with
  | EmptyString => if String.eqb cur "" then [] else [cur]
  | String c r =>
      if py_isspace c then
        (if String.eqb cur "" then split_aux r "" else cur :: split_aux r "")
      else split_aux r (cur ++ String c "")
  end.

(** [str.split()] without arguments: the maximal runs of non-space
    characters. *)
Definition py_split (s : string) : list string := split_aux s "".

(** [html.escape(s, quote=True)]: replaces the ampersand, the angle
    brackets and both quote characters by character references. *)
Definition escape_char (c : ascii) : string :=
  match nat_of_ascii c with
  | 38 => "&amp;"
  | 60 => "&lt;"
  | 62 => "&gt;"
  | 34 => "&quot;"
  | 39 => "&#x27;"
  | _ => String c ""
  end.

Fixpoint html_escape (s : string) : string :=
  match s with
  | EmptyString => ""
  | String c r => escape_char c ++ html_escape r
  end.

(** The class list of a free-form style string:
<<
                for st in style.split():
                    if st.startswith('class:'):
                        classes.append(html.escape(st[6:]))
>> *)
Definition free_form_classes (st : string) : list string :=
  map (fun tok => html_escape (substring 6 (String.length tok - 6) tok))
      (filter (fun tok => String.prefix "class:" tok) (py_split st)).

(** [PPHighlighter._pygments_css_class]: [STANDARD_TYPES[token]], else
    the class of [token.parent]; [standard_types] is Pygments'
    [STANDARD_TYPES] table.  The root token has no parent ([None]),
    whose [.parent] fails. *)
Fixpoint pygments_css_class_aux (standard_types : list string -> option string)
    (fuel : nat) (path : list string) : res string :=
  match standard_types path with
  | Some c => Ok c
  | None =>
      match path, fuel with
      | [], _ | _, O =>
          Raise (Other "AttributeError" "'NoneType' object has no attribute 'parent'")
      | _, S f => pygments_css_class_aux standard_types f (removelast path)
      end
  end.

Definition pygments_css_class standard_types (path : list string) : res string :=
  pygments_css_class_aux standard_types (length path) path.

Definition dq : string := String "034"%char "".

(** [template = '<span class="{}">{}</span>'] *)
Definition template (cls text : string) : string :=
  "<span class=" ++ dq ++ cls ++ dq ++ ">" ++ text ++ "</span>".

(** The body of [for style, text in fragments:]. *)
Definition render_fragment (pygments_styles : bool)
    (standard_types : list string -> option string) (fr : capture) : res string :=
  let '(sty, text) := fr in
  let classes :=
    if pygments_styles then
      match sty with
      | SToken p =>
          match pygments_css_class standard_types p with
          | Ok c => Ok [c]
          | Raise e => Raise e
          end
      | SStr _ => Raise (Other "AttributeError" "'str' object has no attribute 'parent'")
      end
    else
      match sty with
      | SStr st => Ok (free_form_classes st)
      | SToken _ => Raise (Other "AttributeError" "'tuple' object has no attribute 'split'")
      end in
  match classes with
  | Raise e => Raise e
  | Ok cls =>
      match cls with
      | c :: _ =>
          if String.eqb c "" then Ok (html_escape text)
          else Ok (template (join " " cls) (html_escape text))
      | [] => Ok (html_escape text)
      end
  end.

Definition highlight_html (fuel : nat) (pygments_styles : bool)
    (standard_types : list string -> option string) (g : element) (s : string)
    : option (res string) :=
  match highlight_raw fuel pygments_styles g s with
  | None => None
  | Some (Raise e) => Some (Raise e)
  | Some (Ok frs) =>
      match map_res (render_fragment pygments_styles standard_types) frs with
      | Raise e => Some (Raise e)
      | Ok tags =>
          Some (Ok ("<span class=" ++ dq ++ "highlight" ++ dq ++ ">"
                    ++ String.concat "" tags ++ "</span>"))
      end
  end.

(** ** Some pyparsing elements

    Used to build concrete grammars.  Each has the default [preParse] of
    a fresh element (default white space, no ignore expressions). *)

Definition parse_exception {A} : M A := raise (ParseBase "ParseException").

(** [pp.Literal(m)] *)
Definition lit (m : string) : element := {|
  pre_parse := white_pre_parse true default_white;
  parse_body := fun s loc =>
    if String.eqb (substring loc (String.length m) s) m
    then ret (loc + String.length m, [TStr m])
    else parse_exception
|}.

(** [pp.Empty()] *)
Definition empty_el : element := {|
  pre_parse := white_pre_parse true default_white;
  parse_body := fun s loc => ret (loc, [])
|}.

Fixpoint run_length (p : ascii -> bool) (s : string) (loc fuel : nat) : nat :=
  match fuel with
  | O => 0
  | S f =>
      match String.get loc s with
      | Some c => if p c then S (run_length p s (S loc) f) else 0
      | None => 0
      end
  end.

(** [pp.Word(chars)] for a character class [p] *)
Definition word (p : ascii -> bool) : element := {|
  pre_parse := white_pre_parse true default_white;
  parse_body := fun s loc =>
    let n := run_length p s loc (String.length s) in
    if Nat.ltb 0 n then ret (loc + n, [TStr (substring loc n s)])
    else parse_exception
|}.

Definition is_digit (c : ascii) : bool :=
  Nat.leb 48 (nat_of_ascii c) && Nat.leb (nat_of_ascii c) 57.

(** [pp.White()]: matches runs of [" \t\r\n"] and, to do so, skips no
    white space itself ([setWhitespaceChars] with those characters
    removed leaves nothing to skip). *)
Definition white_el : element := {|
  pre_parse := white_pre_parse true [];
  parse_body := fun s loc =>
    let n := run_length (fun c => bool_decide (c ∈ default_white)) s loc
                        (String.length s) in
    if Nat.ltb 0 n then ret (loc + n, [TStr (substring loc n s)])
    else parse_exception
|}.

(** [pp.And(exprs)]: its [preParse] is the first element's white space
    skipping (copied by [And.__init__]); the first element is parsed
    without pre-parsing, the others with it. *)
Fixpoint and_rest (es : list element) (s : string) (loc : nat)
    : M (nat * list token) :=
  match es with
  | [] => ret (loc, [])
  | e :: r =>
      x <-- parse e s loc true ;;
      let '(loc1, t1) := x in
      y <-- and_rest r s loc1 ;;
      let '(loc2, t2) := y in
      ret (loc2, (t1 ++ t2)%list)
  end.

Definition and_ (e : element) (es : list element) : element := {|
  pre_parse := pre_parse e;
  parse_body := fun s loc =>
    x <-- parse e s loc false ;;
    let '(loc1, t1) := x in
    y <-- and_rest es s loc1 ;;
    let '(loc2, t2) := y in
    ret (loc2, (t1 ++ t2)%list)
|}.

(** [e.ignore(pp.Literal(m).addParseAction(f))] where [f] raises
    [ValueError(msg)]: [preParse] skips the ignorable (whose action
    raises when it matches) before the white space. *)
Definition ignoring_raiser (e : element) (m msg : string) : element := {|
  pre_parse := fun s loc =>
    if String.eqb (substring loc (String.length m) s) m
    then raise (Other "ValueError" msg)
    else pre_parse e s loc;
  parse_body := parse_body e
|}.

(** ** Concrete grammars *)

(** A styled rule nested in another one:
    [styler('outer', Literal('a') + styler('inner', Literal('b')) + Literal('c'))]. *)
Definition nested_grammar : element :=
  styler (SStr "outer") (and_ (lit "a") [styler (SStr "inner") (lit "b"); lit "c"]).

(** [styler('class:int', pp.Word(pp.nums))] *)
Definition int_grammar : element := styler (SStr "class:int") (word is_digit).

(** [pp.Word(pp.nums).ignore(pp.Literal('#').addParseAction(f))] where
    [f] raises [ValueError('boom')]. *)
Definition digits_ignoring_hash : element :=
  ignoring_raiser (word is_digit) "#" "boom".

(** A styled rule that matches the empty string:
    [styler('class:x', pp.Empty())]. *)
Definition zero_width_grammar : element := styler (SStr "class:x") empty_el.

(** A grammar whose skip rule raises everywhere, also on the empty
    string: an ignore expression [pp.Empty().addParseAction(f)] with [f]
    raising [ValueError('boom')]. *)
Definition skip_raising_grammar : element := ignoring_raiser (lit "a") "" "boom".

(** [e.addParseAction(f)] where [f] raises [ValueError(msg)]. *)
Definition with_raising_action (e : element) (msg : string) : element := {|
  pre_parse := pre_parse e;
  parse_body := fun s loc =>
    r <-- parse_body e s loc ;;
    raise (Other "ValueError" msg)
|}.

(** [str.split()] leaves no white space in its pieces. *)
Fixpoint no_space (tok : string) : bool :=
  match tok with
  | EmptyString => true
  | String c r => negb (py_isspace c) && no_space r
  end.

(** The characters of a string that are not white space. *)
Fixpoint drop_spaces (s : string) : string :=
  match s with
  | EmptyString => EmptyString
  | String c r => if py_isspace c then drop_spaces r else String c (drop_spaces r)
  end.

(** [styler('bold', pp.Word(pp.nums))]: a style naming no class. *)
Definition bold_digits : element := styler (SStr "bold") (word is_digit).

(** [styler(Token.Literal.Number.Integer, pp.Word(pp.nums))] *)
Definition pyg_int_grammar : element :=
  styler (SToken ["Literal"; "Number"; "Integer"]) (word is_digit).

(** A two-entry [STANDARD_TYPES] table: [Token] and [Token.Name]. *)
Definition pygments_types_sample (p : list string) : option string :=
  if decide (p = []) then Some ""
  else if decide (p = ["Name"]) then Some "n" else None.

(** ** [PPHighlighter.lex_document]
<<
        lines = list(split_lines(self.highlight(document.text)))
        return lambda i: lines[i]
>>
    [split_lines] is prompt_toolkit's [formatted_text.split_lines]; on
    [(style, text)] fragments it runs
<<
    line = []
    for item in fragments:
        style, string = item
        parts = string.split('\n')
        for part in parts[:-1]:
            if part:
                line.append((style, part))
            yield line
            line = []
        line.append((style, parts[-1]))
    yield line
>> *)

(** [str.split('\n')]; [cur] is the piece read so far. *)
Fixpoint split_nl_aux (s cur : string) : list string :=
  match s with
  | EmptyString => [cur]
  | String c r =>
      if Ascii.eqb c "010"%char then cur :: split_nl_aux r ""
      else split_nl_aux r (cur ++ String c "")
  end.

Definition split_nl (s : string) : list string := split_nl_aux s "".

(** [s.count('\n')] *)
Fixpoint count_nl (s : string) : nat :=
  match s with
  | EmptyString => 0
  | String c r => if Ascii.eqb c "010"%char then S (count_nl r) else count_nl r
  end.

(** The inner [for part in parts[:-1]] loop and the final append, from
    the current line [line]: the lines yielded and the new current line.
    [str.split] never returns an empty list, so the first case is not
    reached. *)
Fixpoint emit_parts (sty : style) (parts : list string) (line : list capture)
    : list (list capture) * list capture :=
  match parts with
  | [] => ([], line)
  | [p] => ([], (line ++ [(sty, p)])%list)
  | p :: r =>
      let line' := if String.eqb p "" then line else (line ++ [(sty, p)])%list in
      let '(ls, l) := emit_parts sty r [] in (line' :: ls, l)
  end.

Fixpoint split_lines_aux (frs : list capture) (line : list capture)
    : list (list capture) :=
  match frs with
  | [] => [line]
  | (sty, str) :: r =>
      let '(ls, l) := emit_parts sty (split_nl str) line in
      (ls ++ split_lines_aux r l)%list
  end.

Definition split_lines (frs : list capture) : list (list capture) :=
  split_lines_aux frs [].

(** The line getter returned by [lex_document]; [lines[i]] raises
    [IndexError] past the last line. *)
Definition lex_document (fuel : nat) (pygments_styles : bool) (g : element)
    (text : string) : option (res (nat -> res (list capture))) :=
  match highlight fuel pygments_styles g text with
  | None => None
  | Some (Raise e) => Some (Raise e)
  | Some (Ok frs) =>
      let lines := split_lines frs in
      Some (Ok (fun i =>
        match lines !! i with
        | Some l => Ok l
        | None => Raise (Other "IndexError" "list index out of range")
        end))
  end.

(** ** Properties of capture tables and fragment lists *)

Open Scope nat_scope.

(** What the [styler] action stores: a non-empty [s[loc:end]] lying
    inside [s]. *)
Definition captures_slices (s : string) (t : ctab) : Prop :=
  ∀ l c, t !! l = Some c →
    c.2 <> ""%string ∧ substring l (String.length c.2) s = c.2 ∧
    l + String.length c.2 ≤ String.length s.

(** No capture starts inside the span of another one. *)
Definition captures_disjoint (t : ctab) : Prop :=
  ∀ l1 c1 l2 c2, t !! l1 = Some c1 → t !! l2 = Some c2 → l1 < l2 →
    l1 + String.length c1.2 ≤ l2.

Definition is_token (st : style) : Prop :=
  match st with SToken _ => True | SStr _ => False end.

(** In Pygments mode the styles are Pygments tokens. *)
Definition styles_fit (pygments_styles : bool) (t : ctab) : Prop :=
  pygments_styles = true → ∀ l c, t !! l = Some c → is_token c.1.

(** The start offset of fragment [j]: the length of the texts before it. *)
Definition frag_offset (frs : list capture) (j : nat) : nat :=
  String.length (texts (take j frs)).

(** The loop invariant of the reconstruction when captures are disjoint:
    the output spells [s[0:loc]], the captures before [locs[i]] start
    before [loc], the others at or after it. *)
Definition walk_inv (s : string) (t : ctab) (P : style → Prop)
    (w : walk_state) : Prop :=
  texts (w_out w) = substring 0 (w_loc w) s ∧
  w_loc w ≤ String.length s ∧
  w_i w ≤ length (capture_keys t) ∧
  (∀ j a, j < w_i w → capture_keys t !! j = Some a → a < w_loc w) ∧
  (∀ j a, w_i w ≤ j → capture_keys t !! j = Some a → w_loc w ≤ a) ∧
  Forall (λ fr, P fr.1) (w_out w).

(** The characters [html.escape] must never let through: [<], [>] and
    both quotes. *)
Definition html_special (c : ascii) : bool :=
  bool_decide (nat_of_ascii c ∈ [60; 62; 34; 39]).

(** The characters [html.escape] rewrites: those and [&]. *)
Definition needs_escape (c : ascii) : bool :=
  bool_decide (nat_of_ascii c ∈ [38; 60; 62; 34; 39]).

Fixpoint all_chars (p : ascii → bool) (s : string) : bool :=
  match s with
  | EmptyString => true
  | String c r => p c && all_chars p r
  end.

(** A free-form fragment whose style resolves no class name, or an
    empty first one: [highlight_html] emits its text without a span. *)
Definition unclassed (fr : capture) : Prop :=
  ∃ st, fr.1 = SStr st ∧
        (free_form_classes st = [] ∨ ∃ rest, free_form_classes st = ""%string :: rest).

(** The prompt_toolkit style of a Pygments token. *)
Definition token_class (sty : style) : string :=
  match sty with
  | SToken p => "class:" ++ pygments_token_to_classname p
  | SStr x => x
  end.

(** A bound on the reconstruction's output: at most two fragments per
    capture passed, one more when the last fragment is a default one,
    which is then followed by a capture or by the end. *)
Definition walk_count_ok (s : string) (t : ctab) (w : walk_state) : Prop :=
  length (w_out w) ≤ 2 * w_i w ∨
  (length (w_out w) ≤ 2 * w_i w + 1 ∧
   (w_loc w = String.length s ∨ is_Some (t !! w_loc w))).

(** Where a fragment of the reconstruction comes from: a stored capture,
    verbatim, or a default-style slice of the input. *)
Definition frag_origin (s : string) (t : ctab) (d : style) (fr : capture) : Prop :=
  (∃ l, t !! l = Some fr) ∨ (fr.1 = d ∧ ∃ a b, fr.2 = slice s a b).

Definition prefix_first (c : string) (xs : list string) : list string :=
  match xs with
  | [] => []
  | x :: r => (c ++ x) :: r
  end.

(** ['\n'] *)
Definition nl : string := String "010"%char "".

(** ** Lemmas *)

Lemma string_app_assoc (a b c : string) : (a ++ b) ++ c = a ++ (b ++ c).
Proof. induction a; simpl; congruence. Qed.

Lemma string_app_nil_r (a : string) : a ++ "" = a.
Proof. induction a; simpl; congruence. Qed.

Lemma substring_split (s : string) (loc k : nat) :
  loc + k ≤ String.length s →
  substring 0 loc s ++ substring loc k s = substring 0 (loc + k) s.
Proof.
  revert loc. induction s as [|c r IH]; intros loc Hle; simpl in *.
  - assert (loc = 0) by lia. assert (k = 0) by lia. subst. reflexivity.
  - destruct loc as [|l]; simpl.
    + destruct k; reflexivity.
    + f_equal. apply IH. lia.
Qed.

Lemma substring_full (s : string) : substring 0 (String.length s) s = s.
Proof. induction s; simpl; congruence. Qed.

Lemma substring_app_prefix (b c : string) :
  substring 0 (String.length b) (b ++ c) = b.
Proof. induction b; simpl; [destruct c; reflexivity | congruence]. Qed.

Lemma substring_app_skip (a r : string) (k : nat) :
  substring (String.length a) k (a ++ r) = substring 0 k r.
Proof. induction a; simpl; auto. Qed.

Lemma texts_snoc (out : list capture) (fr : capture) :
  texts (out ++ [fr])%list = texts out ++ fr.2.
Proof.
  induction out as [|x r IH]; simpl.
  - rewrite string_app_nil_r. reflexivity.
  - rewrite IH. rewrite string_app_assoc. reflexivity.
Qed.

Lemma texts_app (l1 l2 : list capture) :
  texts (l1 ++ l2)%list = texts l1 ++ texts l2.
Proof.
  induction l1 as [|x r IH]; simpl; [reflexivity|].
  rewrite IH, string_app_assoc. reflexivity.
Qed.

Lemma run_mono {S : Type} (step : S → step_result S) (n : nat) (st : S) r :
  run step n st = Some r → ∀ k, run step (n + k) st = Some r.
Proof.
  revert st. induction n as [|n IH]; intros st H k; simpl in *; [discriminate|].
  destruct (step st); auto.
Qed.

Lemma run_next {S : Type} (step : S → step_result S) (n : nat) (st st' : S) :
  step st = Next st' → run step (Datatypes.S n) st = run step n st'.
Proof. intros H. simpl. by rewrite H. Qed.

Lemma run_done {S : Type} (step : S → step_result S) (n : nat) (st st' : S) :
  step st = Done st' → run step (Datatypes.S n) st = Some (Ok st').
Proof. intros H. simpl. by rewrite H. Qed.

Lemma capture_keys_elem (t : ctab) (x : nat) :
  x ∈ capture_keys t ↔ is_Some (t !! x).
Proof.
  unfold capture_keys. rewrite (merge_sort_Permutation le).
  rewrite list_elem_of_fmap. split.
  - intros [[k c] [-> Hin]]. apply elem_of_map_to_list in Hin. simpl. eauto.
  - intros [c Hc]. exists (x, c). split; [reflexivity|].
    by apply elem_of_map_to_list.
Qed.

Lemma capture_keys_NoDup (t : ctab) : NoDup (capture_keys t).
Proof.
  unfold capture_keys. rewrite (merge_sort_Permutation le).
  apply NoDup_fst_map_to_list.
Qed.

Lemma StronglySorted_lookup_le (l : list nat) (i j a b : nat) :
  StronglySorted le l → i < j → l !! i = Some a → l !! j = Some b → a ≤ b.
Proof.
  intros Hs. revert i j. induction Hs as [|x r Hs IH Hall]; intros i j Hij Ha Hb;
    [discriminate|].
  destruct i as [|i], j as [|j]; simpl in *; try lia.
  - injection Ha as <-. rewrite Forall_forall in Hall. apply Hall.
    by apply list_elem_of_lookup_2 with j.
  - apply (IH i j); auto; lia.
Qed.

Lemma capture_keys_lt (t : ctab) (i j a b : nat) :
  i < j → capture_keys t !! i = Some a → capture_keys t !! j = Some b → a < b.
Proof.
  intros Hij Ha Hb.
  assert (a ≤ b).
  { eapply StronglySorted_lookup_le; eauto.
    apply StronglySorted_merge_sort; apply _. }
  destruct (decide (a = b)) as [->|]; [|lia].
  pose proof (NoDup_lookup _ _ _ _ (capture_keys_NoDup t) Ha Hb). lia.
Qed.

Lemma capture_keys_le (t : ctab) (i j a b : nat) :
  i ≤ j → capture_keys t !! i = Some a → capture_keys t !! j = Some b → a ≤ b.
Proof.
  intros Hij Ha Hb. destruct (decide (i = j)) as [->|].
  - rewrite Ha in Hb. injection Hb. lia.
  - assert (a < b) by (apply (capture_keys_lt t i j); auto; lia). lia.
Qed.

Section Reconstruction.
Variables (s : string) (t : ctab) (d : style) (P : style → Prop).
Hypothesis Hslices : captures_slices s t.
Hypothesis Hdisjoint : captures_disjoint t.
Hypothesis Hdefault : P d.
Hypothesis Hstyles : ∀ l c, t !! l = Some c → P c.1.

Lemma capture_key_lookup (j a : nat) :
  capture_keys t !! j = Some a → ∃ c, t !! a = Some c.
Proof.
  intros Hj. apply capture_keys_elem. by apply list_elem_of_lookup_2 with j.
Qed.

Lemma walk_inv_init : walk_inv s t P walk_init.
Proof.
  unfold walk_inv; simpl. repeat split; try lia; auto.
  - destruct s; reflexivity.
Qed.

Lemma walk_step_inv (w : walk_state) :
  walk_inv s t P w → w_loc w < String.length s →
  ∃ w', walk_step d s t (sorted_locs t s) w = Next w' ∧
        walk_inv s t P w' ∧ w_loc w < w_loc w'.
Proof.
  intros (Htx & Hle & Hi & Hbef & Haft & Hst) Hlt.
  unfold walk_step. rewrite (proj2 (Nat.ltb_lt _ _) Hlt).
  destruct (t !! w_loc w) as [c|] eqn:Hc.
  - destruct (Hslices _ _ Hc) as (Hne & Hsub & Hend).
    assert (Hlen : 0 < String.length c.2)
      by (destruct c.2; simpl; [congruence | lia]).
    assert (Hin : w_loc w ∈ capture_keys t) by (apply capture_keys_elem; eauto).
    apply list_elem_of_lookup in Hin as [j Hj].
    assert (Hij : w_i w ≤ j).
    { destruct (decide (w_i w ≤ j)); [done|].
      specialize (Hbef j _ ltac:(lia) Hj). lia. }
    assert (Hjl : j < length (capture_keys t)) by (eapply lookup_lt_Some; eauto).
    destruct (lookup_lt_is_Some_2 (capture_keys t) (w_i w) ltac:(lia)) as [a Ha].
    assert (Ha_eq : a = w_loc w).
    { specialize (Haft (w_i w) a ltac:(lia) Ha).
      pose proof (capture_keys_le t (w_i w) j a (w_loc w) Hij Ha Hj). lia. }
    subst a.
    eexists; split; [reflexivity|]. split; [|simpl; lia].
    unfold walk_inv; simpl. split; [|split; [|split; [|split; [|split]]]].
    + rewrite texts_snoc, Htx, <- (substring_split s (w_loc w)) by lia.
      rewrite Hsub. reflexivity.
    + exact Hend.
    + lia.
    + intros j' a' Hj' Ha'.
      destruct (decide (j' < w_i w)).
      * specialize (Hbef j' a' ltac:(lia) Ha'). lia.
      * assert (j' = w_i w) by lia. subst j'. rewrite Ha in Ha'.
        injection Ha' as <-. lia.
    + intros j' a' Hj' Ha'.
      pose proof (capture_keys_lt t (w_i w) j' (w_loc w) a' ltac:(lia) Ha Ha').
      destruct (capture_key_lookup j' a' Ha') as [c' Hc'].
      exact (Hdisjoint _ _ _ _ Hc Hc' H).
    + apply Forall_app; split; [done|]. constructor; [|constructor].
      eapply Hstyles; eauto.
  - unfold sorted_locs.
    destruct (decide (w_i w < length (capture_keys t))) as [Hil|Hil].
    + destruct (lookup_lt_is_Some_2 (capture_keys t) (w_i w) Hil) as [a Ha].
      rewrite lookup_app_l by lia. rewrite Ha.
      specialize (Haft (w_i w) a ltac:(lia) Ha) as Hla.
      destruct (capture_key_lookup _ _ Ha) as [ca Hca].
      assert (Hne : a <> w_loc w) by (intros ->; congruence).
      destruct (Hslices _ _ Hca) as (_ & _ & Hend).
      eexists; split; [reflexivity|]. split; [|simpl; lia].
      unfold walk_inv; simpl. split; [|split; [|split; [|split; [|split]]]].
      * rewrite texts_snoc, Htx. simpl. unfold slice.
        rewrite substring_split by lia. f_equal. lia.
      * lia.
      * lia.
      * intros j' a' Hj' Ha'. specialize (Hbef j' a' Hj' Ha'). lia.
      * intros j' a' Hj' Ha'. eapply capture_keys_le; eauto.
      * apply Forall_app; split; [done|]. by constructor.
    + assert (Hi_eq : w_i w = length (capture_keys t)) by lia.
      rewrite lookup_app_r by lia. rewrite Hi_eq, Nat.sub_diag. simpl.
      eexists; split; [reflexivity|]. split; [|simpl; lia].
      unfold walk_inv; simpl. split; [|split; [|split; [|split; [|split]]]].
      * rewrite texts_snoc, Htx. simpl. unfold slice.
        rewrite substring_split by lia. f_equal. lia.
      * lia.
      * lia.
      * intros j' a' Hj' Ha'. specialize (Hbef j' a' ltac:(lia) Ha'). lia.
      * intros j' a' Hj' Ha'. apply lookup_lt_Some in Ha'. lia.
      * apply Forall_app; split; [done|]. by constructor.
Qed.

Lemma walk_run (fuel : nat) (w : walk_state) :
  walk_inv s t P w → String.length s - w_loc w < fuel →
  ∃ w', run (walk_step d s t (sorted_locs t s)) fuel w = Some (Ok w') ∧
        walk_inv s t P w' ∧ String.length s ≤ w_loc w'.
Proof.
  revert w. induction fuel as [|n IH]; intros w Hinv Hf; [lia|].
  simpl. destruct (decide (w_loc w < String.length s)) as [Hlt|Hge].
  - destruct (walk_step_inv w Hinv Hlt) as (w' & -> & Hinv' & Hlt').
    apply IH; [done | lia].
  - unfold walk_step. rewrite (proj2 (Nat.ltb_ge _ _)) by lia.
    exists w. split; [reflexivity|]. split; [done | lia].
Qed.

Lemma walk_run_texts (fuel : nat) :
  String.length s < fuel →
  ∃ w', run (walk_step d s t (sorted_locs t s)) fuel walk_init = Some (Ok w') ∧
        texts (w_out w') = s ∧ Forall (λ fr, P fr.1) (w_out w').
Proof.
  intros Hf. destruct (walk_run fuel walk_init walk_inv_init ltac:(simpl; lia))
    as (w' & Hrun & (Htx & Hle & _ & _ & _ & Hst) & Hge).
  exists w'. split; [done|]. split; [|done].
  rewrite Htx. replace (w_loc w') with (String.length s) by lia.
  apply substring_full.
Qed.
End Reconstruction.

Lemma map_res_pt_fragment (frs : list capture) :
  Forall (λ fr, is_token fr.1) frs →
  ∃ frs', map_res pt_fragment frs = Ok frs' ∧ texts frs' = texts frs.
Proof.
  induction 1 as [|[[st|p] text] r Hx Hr IH]; simpl in *.
  - by exists [].
  - contradiction.
  - destruct IH as (frs' & -> & Htx). eexists; split; [reflexivity|].
    simpl. by rewrite Htx.
Qed.

Lemma texts_lookup (frs : list capture) (s : string) (j : nat) (fr : capture) :
  texts frs = s → frs !! j = Some fr →
  substring (frag_offset frs j) (String.length fr.2) s = fr.2.
Proof.
  intros Htx Hj. unfold frag_offset. rewrite <- Htx.
  rewrite <- (take_drop_middle frs j fr Hj) at 2.
  rewrite texts_app. simpl. rewrite substring_app_skip, substring_app_prefix.
  reflexivity.
Qed.

Lemma frag_offset_end (frs : list capture) :
  frag_offset frs (length frs) = String.length (texts frs).
Proof. unfold frag_offset. by rewrite take_ge by lia. Qed.

(** Running [highlight] on a scan result whose captures are disjoint
    slices: the reconstruction terminates and spells the input. *)
Lemma highlight_disjoint_run (pygments_styles : bool) (g : element)
    (s : string) (n : nat) (st : scan_state) :
  scan_string n g s = Some (Ok st) →
  captures_slices s (sc_tab st) →
  captures_disjoint (sc_tab st) →
  styles_fit pygments_styles (sc_tab st) →
  ∃ frs, highlight (n + S (String.length s)) pygments_styles g s = Some (Ok frs) ∧
         texts frs = s.
Proof.
  intros Hscan Hsl Hdj Hfit.
  unfold highlight, highlight_raw, scan_string in *.
  rewrite (run_mono _ _ _ _ Hscan).
  destruct (walk_run_texts s (sc_tab st) (default_style pygments_styles)
              (λ sty, pygments_styles = true → is_token sty) Hsl Hdj)
    with (fuel := n + S (String.length s)) as (w & Hrun & Htx & Hst).
  - intros ->. simpl. exact I.
  - intros l c Hc Hp. exact (Hfit Hp l c Hc).
  - lia.
  - rewrite Hrun. destruct pygments_styles.
    + assert (Hall : Forall (λ fr, is_token fr.1) (w_out w)).
      { eapply Forall_impl; [exact Hst|]. simpl. auto. }
      destruct (map_res_pt_fragment _ Hall) as (frs' & -> & Htx').
      exists frs'. split; [reflexivity|]. by rewrite Htx'.
    + exists (w_out w). split; [reflexivity | exact Htx].
Qed.

(** ** C1: the fragment texts concatenate to the input *)

(** C1 (counterexample): with a styled rule nested in another one,
    [highlight("abcd")] returns the fragments [outer "abc"], [default ""],
    [inner "b"], [default "cd"], whose texts spell ["abcbcd"]. *)
Lemma highlight_nested_not_input :
  highlight 10 false nested_grammar "abcd" =
    Some (Ok [(SStr "outer", "abc"); (SStr "", ""); (SStr "inner", "b");
              (SStr "", "cd")]) ∧
  texts [(SStr "outer", "abc"); (SStr "", ""); (SStr "inner", "b");
         (SStr "", "cd")] = "abcbcd".
Proof. split; vm_compute; reflexivity. Qed.

(** C1 (amended): when the scan leaves non-empty captures, each a slice
    of the input at its offset and none starting inside another, the
    fragment texts of [highlight(T)] concatenate to [T]. *)
Theorem highlight_texts_concat (pygments_styles : bool) (g : element)
    (s : string) (n : nat) (st : scan_state) :
  scan_string n g s = Some (Ok st) →
  captures_slices s (sc_tab st) →
  captures_disjoint (sc_tab st) →
  styles_fit pygments_styles (sc_tab st) →
  ∃ frs, highlight (n + S (String.length s)) pygments_styles g s = Some (Ok frs) ∧
         texts frs = s.
Proof. apply highlight_disjoint_run. Qed.

(** ** C2: the fragments are gapless *)

(** C2 (counterexample): on the nested grammar and ["abcd"] the
    fragment lengths add up to 6, not to [length "abcd" = 4]: the last
    fragment ends at offset 6. *)
Lemma highlight_nested_last_end :
  highlight 10 false nested_grammar "abcd" =
    Some (Ok [(SStr "outer", "abc"); (SStr "", ""); (SStr "inner", "b");
              (SStr "", "cd")]) ∧
  frag_offset [(SStr "outer", "abc"); (SStr "", ""); (SStr "inner", "b");
               (SStr "", "cd")] 4 = 6.
Proof. split; vm_compute; reflexivity. Qed.

(** C2 (amended): under the hypotheses of C1 (amended), fragment [j]
    spans exactly [T] from its start offset (the sum of the lengths of the
    fragments before it) to its end, and the last one ends at
    [length T]. *)
Theorem highlight_gapless (pygments_styles : bool) (g : element)
    (s : string) (n : nat) (st : scan_state) :
  scan_string n g s = Some (Ok st) →
  captures_slices s (sc_tab st) →
  captures_disjoint (sc_tab st) →
  styles_fit pygments_styles (sc_tab st) →
  ∃ frs, highlight (n + S (String.length s)) pygments_styles g s = Some (Ok frs) ∧
         (∀ j fr, frs !! j = Some fr →
            substring (frag_offset frs j) (String.length fr.2) s = fr.2) ∧
         frag_offset frs 0 = 0 ∧
         frag_offset frs (length frs) = String.length s.
Proof.
  intros Hscan Hsl Hdj Hfit.
  destruct (highlight_disjoint_run _ _ _ _ _ Hscan Hsl Hdj Hfit) as (frs & Hh & Htx).
  exists frs. split; [done|]. split; [|split].
  - intros j fr Hj. by apply texts_lookup.
  - reflexivity.
  - by rewrite frag_offset_end, Htx.
Qed.

Lemma int_grammar_scan :
  scan_string 5 int_grammar "a 42" =
    Some (Ok (ScanState 5 (Some 4) {[2 := (SStr "class:int", "42")]} [])).
Proof. vm_compute. reflexivity. Qed.

Lemma int_grammar_slices :
  captures_slices "a 42" {[2 := (SStr "class:int", "42")]}.
Proof.
  intros l c Hc. apply lookup_singleton_Some in Hc as [<- <-].
  simpl. repeat split; [discriminate | lia].
Qed.

Lemma int_grammar_disjoint :
  captures_disjoint {[2 := (SStr "class:int", "42")]}.
Proof.
  intros l1 c1 l2 c2 H1 H2 Hlt.
  apply lookup_singleton_Some in H1 as [<- _].
  apply lookup_singleton_Some in H2 as [<- _]. lia.
Qed.

(** C1 witness: the digit-run grammar on ["a 42"]. *)
Lemma highlight_texts_concat_witness :
  ∃ frs, highlight (5 + S 4) false int_grammar "a 42" = Some (Ok frs) ∧
         texts frs = "a 42".
Proof.
  apply (highlight_texts_concat false int_grammar "a 42" 5
           (ScanState 5 (Some 4) {[2 := (SStr "class:int", "42")]} [])).
  - exact int_grammar_scan.
  - exact int_grammar_slices.
  - exact int_grammar_disjoint.
  - intros H. discriminate H.
Defined.

(** C2 witness: the digit-run grammar on ["a 42"]. *)
Lemma highlight_gapless_witness :
  ∃ frs, highlight (5 + S 4) false int_grammar "a 42" = Some (Ok frs) ∧
         (∀ j fr, frs !! j = Some fr →
            substring (frag_offset frs j) (String.length fr.2) "a 42" = fr.2) ∧
         frag_offset frs 0 = 0 ∧
         frag_offset frs (length frs) = String.length "a 42".
Proof.
  apply (highlight_gapless false int_grammar "a 42" 5
           (ScanState 5 (Some 4) {[2 := (SStr "class:int", "42")]} [])).
  - exact int_grammar_scan.
  - exact int_grammar_slices.
  - exact int_grammar_disjoint.
  - intros H. discriminate H.
Defined.

(** ** C3 and C5: a fault of the skip rule after the first iteration *)

(** The scan of [digits_ignoring_hash] on ["1#"]: the first attempt
    matches ["1"] and moves the cursor to 1; from then on the skip rule
    raises at offset 1, [preloc] still holds 0 from the first attempt,
    and the cursor is set back to [0 + 1]. *)
Lemma digits_hash_step (t : ctab) (ws : list string) :
  scan_step digits_ignoring_hash "1#" (ScanState 1 (Some 0) t ws) =
    Next (ScanState 1 (Some 0) t (ws ++ ["Exception during parsing: ValueError: boom"])%list).
Proof. reflexivity. Qed.

Lemma digits_hash_loops (n : nat) (t : ctab) (ws : list string) :
  run (scan_step digits_ignoring_hash "1#") n (ScanState 1 (Some 0) t ws) = None.
Proof.
  revert ws. induction n as [|n IH]; intros ws; [reflexivity|].
  rewrite (run_next _ _ _ _ (digits_hash_step t ws)). apply IH.
Qed.

Lemma digits_hash_first_step :
  scan_step digits_ignoring_hash "1#" scan_init = Next (ScanState 1 (Some 0) ∅ []).
Proof. reflexivity. Qed.

Lemma digits_hash_scan_diverges (n : nat) :
  scan_string n digits_ignoring_hash "1#" = None.
Proof.
  destruct n as [|n]; [reflexivity|].
  unfold scan_string. rewrite (run_next _ _ _ _ digits_hash_first_step).
  apply digits_hash_loops.
Qed.

(** C3 (code_bug evidence): on ["1#"] with a grammar whose skip rule
    faults at offset 1, every later iteration leaves the cursor at 1
    (it does not increase), and the scan never ends: no fuel is
    enough. *)
Theorem scan_cursor_not_increasing :
  scan_step digits_ignoring_hash "1#" scan_init = Next (ScanState 1 (Some 0) ∅ []) ∧
  (∀ t ws, ∃ ws',
     scan_step digits_ignoring_hash "1#" (ScanState 1 (Some 0) t ws) =
       Next (ScanState 1 (Some 0) t ws')) ∧
  (∀ n, scan_string n digits_ignoring_hash "1#" = None).
Proof.
  split; [exact digits_hash_first_step|]. split.
  - intros t ws. eexists. apply digits_hash_step.
  - exact digits_hash_scan_diverges.
Qed.

(** C5 (code_bug evidence): the skip rule of [digits_ignoring_hash]
    raises [ValueError] at offset 1; on the second iteration of the
    scan of ["1#"] the scan swallows it (a warning, the cursor set to
    [0 + 1]) instead of aborting, and [highlight] never raises it. *)
Theorem skip_fault_not_propagated :
  fst (pre_parse digits_ignoring_hash "1#" 1 ∅) = Raise (Other "ValueError" "boom") ∧
  scan_step digits_ignoring_hash "1#" (ScanState 1 (Some 0) ∅ []) =
    Next (ScanState 1 (Some 0) ∅ ["Exception during parsing: ValueError: boom"]) ∧
  (∀ n pygments_styles,
     highlight n pygments_styles digits_ignoring_hash "1#" <>
       Some (Raise (Other "ValueError" "boom"))).
Proof.
  split; [reflexivity|]. split; [reflexivity|].
  intros n pyg. unfold highlight, highlight_raw.
  rewrite digits_hash_scan_diverges. discriminate.
Qed.

(** ** C4: a fault of the grammar is downgraded to a warning *)

(** C4: when the skip rule succeeds at the cursor and the match then
    raises a fault that is not a [ParseBaseException], the iteration
    does not raise: it appends one warning naming the fault's type and
    message, moves the cursor one past the skip position, and the scan
    goes on from there. *)
Theorem scan_fault_recovers (g : element) (s : string) (st : scan_state)
    (pre : nat) (t1 t2 : ctab) (name msg : string) :
  sc_loc st ≤ String.length s →
  pre_parse g s (sc_loc st) (sc_tab st) = (Ok pre, t1) →
  parse g s pre false t1 = (Raise (Other name msg), t2) →
  let st' := ScanState (S pre) (Some pre) t2
               (sc_warnings st ++ [("Exception during parsing: " ++ name ++ ": " ++ msg)%string])%list in
  scan_step g s st = Next st' ∧
  ∀ n, run (scan_step g s) (S n) st = run (scan_step g s) n st'.
Proof.
  intros Hle Hpre Hparse st'.
  assert (Hstep : scan_step g s st = Next st').
  { unfold scan_step. rewrite (proj2 (Nat.leb_le _ _) Hle), Hpre, Hparse.
    reflexivity. }
  split; [exact Hstep|]. intros n. simpl. by rewrite Hstep.
Qed.

(** C4 witness: [pp.Word(pp.nums)] with an action raising
    [ValueError('bad')], at the start of ["1"]. *)
Lemma scan_fault_recovers_witness :
  let g := with_raising_action (word is_digit) "bad" in
  scan_step g "1" scan_init =
    Next (ScanState 1 (Some 0) ∅ ["Exception during parsing: ValueError: bad"]).
Proof.
  apply (scan_fault_recovers (with_raising_action (word is_digit) "bad") "1"
           scan_init 0 ∅ ∅ "ValueError" "bad").
  - simpl. lia.
  - reflexivity.
  - reflexivity.
Defined.

(** ** C6: zero-width captures *)

(** The reconstruction never moves past an empty capture: it appends it
    again and again at the same offset. *)
Lemma walk_zero_width_loops (d : style) (s : string) (t : ctab) (locs : list nat)
    (loc : nat) (c : capture) (n i : nat) (out : list capture) :
  loc < String.length s → t !! loc = Some c → c.2 = ""%string →
  run (walk_step d s t locs) n (WalkState i loc out) = None.
Proof.
  intros Hlt Hc He. revert i out. induction n as [|n IH]; intros i out; [reflexivity|].
  assert (Hstep : walk_step d s t locs (WalkState i loc out) =
                  Next (WalkState (S i) loc (out ++ [c])%list)).
  { unfold walk_step. simpl. rewrite (proj2 (Nat.ltb_lt _ _) Hlt), Hc, He.
    simpl. by rewrite Nat.add_0_r. }
  rewrite (run_next _ _ _ _ Hstep). apply IH.
Qed.

Lemma zero_width_scan :
  scan_string 3 zero_width_grammar "a" =
    Some (Ok (ScanState 2 (Some 1)
               (<[1 := (SStr "class:x", "")]> {[0 := (SStr "class:x", "")]}) [])).
Proof. vm_compute. reflexivity. Qed.

(** C6 (code_bug evidence): with [styler('class:x', pp.Empty())] on
    ["a"] the scan ends (after three turns, with empty captures at 0
    and 1), but [highlight] does not return for any fuel: the
    reconstruction loops on the empty capture at offset 0. *)
Theorem zero_width_highlight_diverges :
  (∃ st, scan_string 3 zero_width_grammar "a" = Some (Ok st)) ∧
  (∀ n pygments_styles, highlight n pygments_styles zero_width_grammar "a" = None).
Proof.
  split; [eexists; exact zero_width_scan|].
  intros n pyg.
  destruct (decide (3 ≤ n)) as [Hn|Hn].
  - replace n with (3 + (n - 3)) by lia.
    unfold highlight, highlight_raw, scan_string.
    rewrite (run_mono _ _ _ _ zero_width_scan). simpl sc_tab. unfold walk_init.
    rewrite (walk_zero_width_loops _ _ _ _ 0 (SStr "class:x", "")).
    + reflexivity.
    + simpl. lia.
    + reflexivity.
    + reflexivity.
  - destruct n as [|[|[|n]]]; try lia; destruct pyg; vm_compute; reflexivity.
Qed.

(** ** C7: a grammar that matches nothing *)

Lemma scan_init_not_done (g : element) (s : string) (st : scan_state) :
  scan_step g s scan_init <> Done st.
Proof.
  unfold scan_step, scan_except, parse, bind, ret. simpl.
  repeat case_match; discriminate.
Qed.

Lemma scan_string_fuel (g : element) (s : string) (n : nat) (st : scan_state) :
  scan_string n g s = Some (Ok st) → 2 ≤ n.
Proof.
  intros H. destruct n as [|[|n]]; [discriminate| |lia].
  unfold scan_string in H. simpl in H.
  destruct (scan_step g s scan_init) eqn:E; try discriminate.
  injection H as ->. by apply scan_init_not_done in E.
Qed.

(** C7 (counterexample): [pp.Literal('z')] matches nothing in the
    empty string; the capture table stays empty and [highlight('')]
    returns no fragment, not one. *)
Lemma no_match_empty_input :
  scan_string 3 (lit "z") "" = Some (Ok (ScanState 1 (Some 0) ∅ [])) ∧
  highlight 3 false (lit "z") "" = Some (Ok []).
Proof. split; vm_compute; reflexivity. Qed.

(** C7 (amended): for a non-empty [T] on which the scan ends with an
    empty capture table, [highlight(T)] is the single default-style
    fragment [T] ([''] in free-form mode, [Token.Text] rendered as
    [class:pygments.text] in Pygments mode). *)
Theorem no_match_single_fragment (pygments_styles : bool) (g : element)
    (s : string) (n : nat) (st : scan_state) :
  s <> ""%string →
  scan_string n g s = Some (Ok st) →
  sc_tab st = ∅ →
  highlight n pygments_styles g s =
    Some (Ok [(if pygments_styles then SStr "class:pygments.text" else SStr "", s)]).
Proof.
  intros Hne Hscan Ht.
  pose proof (scan_string_fuel _ _ _ _ Hscan) as Hn.
  assert (Hlen : 0 < String.length s) by (destruct s; [congruence | simpl; lia]).
  unfold highlight, highlight_raw. rewrite Hscan, Ht.
  assert (Hlocs : sorted_locs ∅ s = [String.length s]).
  { unfold sorted_locs, capture_keys. by rewrite map_to_list_empty. }
  rewrite Hlocs.
  assert (Hs1 : walk_step (default_style pygments_styles) s ∅ [String.length s] walk_init =
                Next (WalkState 0 (String.length s)
                        [(default_style pygments_styles, slice s 0 (String.length s))])).
  { unfold walk_step. simpl. rewrite (proj2 (Nat.ltb_lt _ _) Hlen).
    rewrite lookup_empty. reflexivity. }
  destruct n as [|[|n]]; [lia|lia|].
  rewrite (run_next _ _ _ _ Hs1).
  rewrite run_done with (st' := WalkState 0 (String.length s)
                        [(default_style pygments_styles, slice s 0 (String.length s))]).
  - unfold slice. rewrite Nat.sub_0_r, substring_full. by destruct pygments_styles.
  - unfold walk_step. simpl. by rewrite Nat.ltb_irrefl.
Qed.

(** C7 witness: [pp.Literal('z')] on ["ab"]. *)
Lemma no_match_single_fragment_witness :
  highlight 4 false (lit "z") "ab" = Some (Ok [(SStr "", "ab")]).
Proof.
  apply (no_match_single_fragment false (lit "z") "ab" 4
           (ScanState 3 (Some 2) ∅ [])).
  - discriminate.
  - vm_compute. reflexivity.
  - reflexivity.
Defined.

(** ** C8: CSS classes of a free-form style *)

Lemma no_space_snoc (cur : string) (c : ascii) :
  no_space (cur ++ String c "") = no_space cur && negb (py_isspace c).
Proof.
  induction cur as [|x r IH]; simpl.
  - by destruct (py_isspace c).
  - rewrite IH. by destruct (py_isspace x), (no_space r), (py_isspace c).
Qed.

Lemma split_aux_tokens (s cur : string) :
  no_space cur = true →
  ∀ tok, tok ∈ split_aux s cur → tok <> ""%string ∧ no_space tok = true.
Proof.
  revert cur. induction s as [|c r IH]; intros cur Hcur tok Htok; simpl in Htok.
  - destruct (String.eqb_spec cur ""); [by apply elem_of_nil in Htok|].
    apply list_elem_of_singleton in Htok as ->. done.
  - destruct (py_isspace c) eqn:Hc.
    + destruct (String.eqb_spec cur "").
      * by apply (IH "").
      * apply elem_of_cons in Htok as [->|Htok]; [done|].
        by apply (IH "").
    + apply (IH (cur ++ String c "")); [|done].
      rewrite no_space_snoc, Hcur, Hc. reflexivity.
Qed.

Lemma split_aux_concat (s cur : string) :
  fold_right String.append "" (split_aux s cur) = cur ++ drop_spaces s.
Proof.
  revert cur. induction s as [|c r IH]; intros cur; simpl.
  - destruct (String.eqb_spec cur ""); simpl.
    + subst. reflexivity.
    + reflexivity.
  - destruct (py_isspace c) eqn:Hc.
    + destruct (String.eqb_spec cur ""); simpl.
      * subst. apply IH.
      * rewrite IH. reflexivity.
    + rewrite IH, string_app_assoc. reflexivity.
Qed.

(** C8 (counterexample): the style ["class: class:foo"] resolves the
    class names [""] and ["foo"]; one of them is non-empty, yet the
    fragment is emitted without a span, because only the first class
    name is tested. *)
Lemma html_first_class_empty :
  free_form_classes "class: class:foo" = [""; "foo"] ∧
  render_fragment false (λ _, None) (SStr "class: class:foo", "x") = Ok "x" ∧
  highlight_html 5 false (λ _, None) (styler (SStr "class: class:foo") (lit "x")) "x" =
    Some (Ok ("<span class=" ++ dq ++ "highlight" ++ dq ++ ">x</span>")).
Proof. split; [|split]; vm_compute; reflexivity. Qed.

(** C8 (amended): in free-form mode the style string is split into its
    maximal runs of non-space characters; the tokens starting with
    [class:] give the class names (the rest of the token, HTML-escaped);
    the fragment is [<span class="c1 c2 ...">escaped-text</span>] when the
    first class name is non-empty, and the escaped text alone when there
    is no class name or the first one is empty. *)
Theorem html_free_form_fragment (standard_types : list string → option string)
    (st text : string) :
  (∀ tok, tok ∈ py_split st → tok <> ""%string ∧ no_space tok = true) ∧
  fold_right String.append "" (py_split st) = drop_spaces st ∧
  free_form_classes st =
    map (λ tok, html_escape (substring 6 (String.length tok - 6) tok))
        (filter (λ tok, String.prefix "class:" tok) (py_split st)) ∧
  (∀ c rest, free_form_classes st = c :: rest → c <> ""%string →
     render_fragment false standard_types (SStr st, text) =
       Ok (template (join " " (c :: rest)) (html_escape text))) ∧
  ((free_form_classes st = [] ∨ ∃ rest, free_form_classes st = "" :: rest) →
     render_fragment false standard_types (SStr st, text) = Ok (html_escape text)).
Proof.
  split; [|split; [|split; [|split]]].
  - apply split_aux_tokens. reflexivity.
  - apply split_aux_concat.
  - reflexivity.
  - intros c rest Hcls Hc. simpl. rewrite Hcls.
    destruct (String.eqb_spec c ""); [contradiction | reflexivity].
  - intros [Hcls | [rest Hcls]]; simpl; rewrite Hcls; reflexivity.
Qed.

(** ** C9: the styled wrapper is transparent *)

Lemma pop_loc_snoc (toks : list token) (e : nat) :
  pop_loc (toks ++ [TLoc e])%list = Some (toks, e).
Proof. unfold pop_loc. by rewrite last_snoc, removelast_last. Qed.

(** C9 (counterexample): [pp.White()] skips no white space before
    matching, while its wrapper skips the default white space first;
    on [" "] the rule matches one character and the wrapped rule fails. *)
Lemma styler_white_not_transparent :
  fst (parse white_el " " 0 true ∅) = Ok (1, [TStr " "]) ∧
  fst (parse (styler (SStr "class:ws") white_el) " " 0 true ∅) =
    Raise (ParseBase "ParseException").
Proof. split; vm_compute; reflexivity. Qed.

(** C9 (amended): when the wrapped rule is called without pre-parsing,
    or when its own skip rule is the default one of a fresh element
    (default white space, no ignore expressions), the wrapper accepts
    and rejects exactly as the rule does, with the same end offset and
    tokens; only the capture table differs. *)
Theorem styler_transparent (st : style) (expr : element) (s : string)
    (loc : nat) (callPreParse : bool) (t : ctab) :
  (callPreParse = true → pre_parse expr = white_pre_parse true default_white) →
  fst (parse (styler st expr) s loc callPreParse t) =
    fst (parse expr s loc callPreParse t).
Proof.
  intros Hpre.
  assert (Hbody : ∀ l, fst (parse_body (styler st expr) s l t) =
                       fst (parse_body expr s l t)).
  { intros l. simpl. unfold parse, bind, ret. simpl.
    destruct (parse_body expr s l t) as [[[e toks]|ex] t'].
    - by rewrite pop_loc_snoc.
    - reflexivity. }
  unfold parse. destruct callPreParse.
  - rewrite Hpre by reflexivity. unfold bind, white_pre_parse, ret.
    simpl pre_parse. apply Hbody.
  - unfold bind, ret. apply Hbody.
Qed.

(** C9 witness: [pp.Literal('a')] at the start of [" a"]. *)
Lemma styler_transparent_witness :
  fst (parse (styler (SStr "class:a") (lit "a")) " a" 0 true ∅) =
    fst (parse (lit "a") " a" 0 true ∅).
Proof.
  apply (styler_transparent (SStr "class:a") (lit "a") " a" 0 true ∅).
  intros _. reflexivity.
Defined.

(** C8 witness: the style ["class:int"] on the text ["1"]. *)
Lemma html_free_form_fragment_witness :
  render_fragment false (λ _, None) (SStr "class:int", "1") =
    Ok (template (join " " ["int"]) (html_escape "1")).
Proof.
  destruct (html_free_form_fragment (λ _, None) "class:int" "1")
    as (_ & _ & _ & Hspan & _).
  apply Hspan.
  - reflexivity.
  - discriminate.
Defined.

(** ** C10: the empty input *)

(** C10 (counterexample): a grammar whose skip rule raises at offset 0
    makes [highlight('')] raise, instead of returning no fragment. *)
Lemma empty_input_skip_fault :
  highlight 3 false skip_raising_grammar "" = Some (Raise (Other "ValueError" "boom")).
Proof. vm_compute. reflexivity. Qed.

Lemma scan_empty_first_step (g : element) (pre : nat) (t1 : ctab) :
  pre_parse g "" 0 ∅ = (Ok pre, t1) →
  ∃ st1, scan_step g "" scan_init = Next st1 ∧ 1 ≤ sc_loc st1.
Proof.
  intros Hpre. unfold scan_step. simpl. rewrite Hpre.
  unfold parse, bind, ret. simpl.
  destruct (parse_body g "" pre t1) as [[[nx toks]|e] t2]; simpl.
  - eexists; split; [reflexivity|]. simpl.
    destruct (Nat.ltb_spec 0 nx); lia.
  - eexists; split; [reflexivity|]. simpl. lia.
Qed.

(** C10 (amended): [highlight('')] makes one scan attempt; if the
    grammar's skip rule raises at offset 0 the fault reaches the caller,
    otherwise the result is the empty fragment list. *)
Theorem highlight_empty_input (pygments_styles : bool) (g : element) (n : nat) :
  2 ≤ n →
  highlight n pygments_styles g "" =
    match fst (pre_parse g "" 0 ∅) with
    | Raise e => Some (Raise e)
    | Ok _ => Some (Ok [])
    end.
Proof.
  intros Hn. destruct n as [|[|n]]; [lia|lia|].
  unfold highlight, highlight_raw, scan_string.
  destruct (pre_parse g "" 0 ∅) as [[pre|e] t1] eqn:Hpre; simpl fst.
  - destruct (scan_empty_first_step g pre t1 Hpre) as (st1 & Hs1 & Hloc).
    rewrite (run_next _ _ _ _ Hs1).
    rewrite (run_done _ _ _ st1).
    + rewrite (run_done _ _ _ walk_init).
      * by destruct pygments_styles.
      * reflexivity.
    + unfold scan_step. rewrite (proj2 (Nat.leb_gt _ _)) by (simpl; lia). reflexivity.
  - assert (Hs1 : scan_step g "" scan_init = Abort e).
    { unfold scan_step. simpl. by rewrite Hpre. }
    simpl. rewrite Hs1. reflexivity.
Qed.

(** C10 witness: [pp.Literal('a')] on the empty string. *)
Lemma highlight_empty_input_witness :
  highlight 2 false (lit "a") "" = Some (Ok []).
Proof.
  apply (highlight_empty_input false (lit "a") 2). lia.
Defined.

(** ** Further properties of the module *)

(** *** Loops *)

Lemma run_invariant {S : Type} (step : S → step_result S) (I : S → Prop) :
  (∀ st st', I st → step st = Next st' → I st') →
  (∀ st st', I st → step st = Done st' → I st') →
  ∀ n st r, I st → run step n st = Some (Ok r) → I r.
Proof.
  intros Hnext Hdone n. induction n as [|n IH]; intros st r Hst Hrun; [discriminate|].
  simpl in Hrun. destruct (step st) as [st'|st'|e] eqn:E.
  - eapply IH; [|exact Hrun]. eauto.
  - injection Hrun as <-. eauto.
  - discriminate.
Qed.

Lemma scan_step_done (g : element) (s : string) (st st' : scan_state) :
  scan_step g s st = Done st' → st' = st.
Proof. unfold scan_step, scan_except. intros Hd. repeat case_match; congruence. Qed.

Lemma walk_step_done (d : style) (s : string) (t : ctab) (locs : list nat)
    (w w' : walk_state) :
  walk_step d s t locs w = Done w' → w' = w.
Proof. unfold walk_step. intros Hd. repeat case_match; congruence. Qed.

(** *** [html.escape] *)

Lemma all_chars_app (p : ascii → bool) (a b : string) :
  all_chars p (a ++ b) = all_chars p a && all_chars p b.
Proof.
  induction a as [|c r IH]; cbn [String.append all_chars]; [reflexivity|].
  by rewrite IH, andb_assoc.
Qed.

Lemma escape_char_safe (c : ascii) :
  all_chars (λ x, negb (html_special x)) (escape_char c) = true.
Proof. destruct c as [[] [] [] [] [] [] [] []]; reflexivity. Qed.

Lemma escape_char_plain (c : ascii) :
  needs_escape c = false → escape_char c = String c "".
Proof.
  destruct c as [[] [] [] [] [] [] [] []]; intros H; try reflexivity;
    vm_compute in H; discriminate H.
Qed.

Lemma html_escape_app (a b : string) :
  html_escape (a ++ b) = html_escape a ++ html_escape b.
Proof.
  induction a as [|c r IH]; cbn [String.append html_escape]; [reflexivity|].
  by rewrite IH, string_app_assoc.
Qed.

(** X1: the output of [html.escape] contains no [<], [>], double or
    single quote, and a string without [&], [<], [>] and quotes comes
    back unchanged. *)
Theorem html_escape_safe (s : string) :
  all_chars (λ c, negb (html_special c)) (html_escape s) = true ∧
  (all_chars (λ c, negb (needs_escape c)) s = true → html_escape s = s).
Proof.
  split.
  - induction s as [|c r IH]; cbn [html_escape]; [reflexivity|].
    by rewrite all_chars_app, escape_char_safe, IH.
  - induction s as [|c r IH]; cbn [html_escape all_chars]; [reflexivity|].
    intros H. apply andb_prop in H as [Hc Hr].
    rewrite escape_char_plain by (by destruct (needs_escape c)).
    cbn [String.append]. by rewrite IH.
Qed.

(** *** [highlight_html] on unclassed styles *)

Lemma concat_empty_cons (x : string) (xs : list string) :
  String.concat "" (x :: xs) = x ++ String.concat "" xs.
Proof. destruct xs; simpl; [by rewrite string_app_nil_r | reflexivity]. Qed.

Lemma render_unclassed (standard_types : list string → option string)
    (frs : list capture) :
  Forall unclassed frs →
  map_res (render_fragment false standard_types) frs =
    Ok (map (λ fr, html_escape fr.2) frs).
Proof.
  induction 1 as [|[sty text] r (st & Hst & Hcls) Hr IH]; [reflexivity|].
  simpl in Hst. subst sty.
  assert (Hx : render_fragment false standard_types (SStr st, text) = Ok (html_escape text)).
  { unfold render_fragment. cbn -[free_form_classes html_escape].
    destruct Hcls as [Hc | [rest Hc]]; rewrite Hc; reflexivity. }
  cbn [map_res map]. rewrite Hx, IH. reflexivity.
Qed.

Lemma concat_escaped (frs : list capture) :
  String.concat "" (map (λ fr, html_escape fr.2) frs) = html_escape (texts frs).
Proof.
  induction frs as [|fr r IH]; [reflexivity|].
  cbn [map]. rewrite concat_empty_cons, IH.
  change (texts (fr :: r)) with (fr.2 ++ texts r).
  by rewrite html_escape_app.
Qed.

(** X2: in free-form mode, when no fragment's style resolves a
    non-empty first class name, [highlight_html] is the escaped
    concatenation of the fragment texts inside the outer
    [<span class="highlight">]: such styles leave no trace in the
    HTML. *)
Theorem html_unclassed_text (standard_types : list string → option string)
    (g : element) (s : string) (n : nat) (frs : list capture) :
  highlight_raw n false g s = Some (Ok frs) →
  Forall unclassed frs →
  highlight_html n false standard_types g s =
    Some (Ok ("<span class=" ++ dq ++ "highlight" ++ dq ++ ">"
              ++ html_escape (texts frs) ++ "</span>")).
Proof.
  intros Hraw Hall. unfold highlight_html. rewrite Hraw.
  rewrite (render_unclassed standard_types frs Hall), concat_escaped.
  reflexivity.
Qed.

(** *** Termination of the scan *)

Lemma skip_white_ge (wt : list ascii) (s : string) (loc fuel : nat) :
  loc ≤ skip_white wt s loc fuel.
Proof.
  revert loc. induction fuel as [|f IH]; intros loc; simpl; [lia|].
  destruct (String.get loc s); [|lia].
  case_decide; [specialize (IH (S loc)); lia | lia].
Qed.

Lemma scan_step_progress (g : element) (s : string) (st : scan_state) :
  (∀ loc t, loc ≤ String.length s →
     ∃ pre t', pre_parse g s loc t = (Ok pre, t') ∧ loc ≤ pre) →
  sc_loc st ≤ String.length s →
  ∃ st', scan_step g s st = Next st' ∧ sc_loc st < sc_loc st'.
Proof.
  intros Hpre Hle.
  destruct (Hpre (sc_loc st) (sc_tab st) Hle) as (pre & t1 & Hp & Hge).
  unfold scan_step. rewrite (proj2 (Nat.leb_le _ _) Hle), Hp.
  destruct (parse g s pre false t1) as [[[nx toks]|e] t2].
  - eexists; split; [reflexivity|]. simpl.
    destruct (Nat.ltb_spec (sc_loc st) nx); lia.
  - eexists; split; [reflexivity|]. simpl. lia.
Qed.

Lemma scan_run_progress (g : element) (s : string) :
  (∀ loc t, loc ≤ String.length s →
     ∃ pre t', pre_parse g s loc t = (Ok pre, t') ∧ loc ≤ pre) →
  ∀ fuel st, String.length s + 1 - sc_loc st < fuel →
  ∃ st', run (scan_step g s) fuel st = Some (Ok st') ∧
         String.length s < sc_loc st'.
Proof.
  intros Hpre fuel. induction fuel as [|n IH]; intros st Hf; [lia|].
  destruct (decide (sc_loc st ≤ String.length s)) as [Hle|Hgt].
  - destruct (scan_step_progress g s st Hpre Hle) as (st' & Hs & Hlt).
    rewrite (run_next _ _ _ _ Hs). apply IH. lia.
  - exists st. split; [|lia]. apply run_done. unfold scan_step.
    by rewrite (proj2 (Nat.leb_gt _ _)) by lia.
Qed.

(** X3: if the grammar's skip rule never raises and never moves
    backwards on the input, [_scan_string] terminates within
    [len(s) + 2] turns, with the cursor past the end. *)
Theorem scan_terminates (g : element) (s : string) :
  (∀ loc t, loc ≤ String.length s →
     ∃ pre t', pre_parse g s loc t = (Ok pre, t') ∧ loc ≤ pre) →
  ∃ st, scan_string (String.length s + 2) g s = Some (Ok st) ∧
        String.length s < sc_loc st.
Proof.
  intros Hpre. apply (scan_run_progress g s Hpre). unfold scan_init. simpl. lia.
Qed.

(** X4: a grammar whose skip rule is pyparsing's default one (white
    space skipping, no ignore expressions), for example any rule
    wrapped by [styler], makes [_scan_string] terminate within
    [len(s) + 2] turns: the divergence of C3/C5 needs an ignore
    expression that raises. *)
Theorem default_skip_scan_terminates (g : element) (s : string)
    (skipWhitespace : bool) (wt : list ascii) :
  pre_parse g = white_pre_parse skipWhitespace wt →
  ∃ st, scan_string (String.length s + 2) g s = Some (Ok st) ∧
        String.length s < sc_loc st.
Proof.
  intros Hg. apply (scan_run_progress g s); [|unfold scan_init; simpl; lia].
  intros loc t _. rewrite Hg. unfold white_pre_parse, ret.
  eexists _, _. split; [reflexivity|].
  destruct skipWhitespace; [apply skip_white_ge | lia].
Qed.

(** *** Warnings *)

Lemma warning_of_parse_base (e : exn) : is_parse_base e = true → warning_of e = [].
Proof. destruct e; simpl; [reflexivity | discriminate]. Qed.

Lemma scan_step_no_warnings (g : element) (s : string) (st st' : scan_state) :
  (∀ loc t e t', pre_parse g s loc t = (Raise e, t') → is_parse_base e = true) →
  (∀ loc t e t', parse g s loc false t = (Raise e, t') → is_parse_base e = true) →
  sc_warnings st = [] → scan_step g s st = Next st' → sc_warnings st' = [].
Proof.
  intros Hpre Hparse Hws Hs. unfold scan_step in Hs.
  destruct (Nat.leb _ _); [|discriminate].
  destruct (pre_parse g s (sc_loc st) (sc_tab st)) as [[pre|e] t1] eqn:Hp.
  - destruct (parse g s pre false t1) as [[[nx toks]|e] t2] eqn:Hq.
    + injection Hs as <-. exact Hws.
    + unfold scan_except in Hs. injection Hs as <-. simpl.
      rewrite Hws, (warning_of_parse_base e (Hparse _ _ _ _ Hq)). reflexivity.
  - unfold scan_except in Hs. destruct (sc_preloc st); [|discriminate].
    injection Hs as <-. simpl.
    rewrite Hws, (warning_of_parse_base e (Hpre _ _ _ _ Hp)). reflexivity.
Qed.

(** X5: a grammar that only ever fails with pyparsing's own
    [ParseBaseException]s (in its skip rule and in its match) makes
    [_scan_string] emit no warning at all: a failed match only moves
    the cursor. *)
Theorem scan_parse_failures_silent (g : element) (s : string) (n : nat)
    (st : scan_state) :
  (∀ loc t e t', pre_parse g s loc t = (Raise e, t') → is_parse_base e = true) →
  (∀ loc t e t', parse g s loc false t = (Raise e, t') → is_parse_base e = true) →
  scan_string n g s = Some (Ok st) → sc_warnings st = [].
Proof.
  intros Hpre Hparse Hscan.
  refine (run_invariant (scan_step g s) (λ st, sc_warnings st = []) _ _ n scan_init st
            eq_refl Hscan).
  - intros st1 st1' Hws Hs. exact (scan_step_no_warnings g s st1 st1' Hpre Hparse Hws Hs).
  - intros st1 st1' Hws Hd. apply scan_step_done in Hd. by subst.
Qed.

(** *** The action of [styler] *)

(** X6: a styled rule [styler(style, expr)] succeeds or fails exactly
    when [expr] does at the offset reached by the wrapper's white-space
    skipping; on success it stores [(style, s[pre:end])] at that offset
    [pre] (replacing any earlier capture there) and leaves every other
    entry as [expr] left it; on failure it stores nothing. *)
Theorem styler_records_capture (st : style) (expr : element) (s : string)
    (loc : nat) (callPreParse : bool) (t : ctab) :
  let pre := if callPreParse then skip_white default_white s loc (String.length s)
             else loc in
  match parse (styler st expr) s loc callPreParse t, parse expr s pre false t with
  | (Ok (e, toks), t'), (Ok (e1, toks1), t1) =>
      e = e1 ∧ toks = toks1 ∧ t' !! pre = Some (st, slice s pre e) ∧
      ∀ k, k ≠ pre → t' !! k = t1 !! k
  | (Raise ex, t'), (Raise ex1, t1) => ex = ex1 ∧ t' = t1
  | _, _ => False
  end.
Proof.
  intros pre.
  assert (Hsty : parse (styler st expr) s loc callPreParse t =
                 parse_body (styler st expr) s pre t).
  { unfold pre, parse. destruct callPreParse; reflexivity. }
  rewrite Hsty. cbn [parse_body styler]. unfold bind at 1.
  destruct (parse expr s pre false t) as [[[e toks]|ex] t1] eqn:Hq.
  - rewrite pop_loc_snoc. split; [done|]. split; [done|]. split.
    + apply lookup_insert_eq.
    + intros k Hk. apply lookup_insert_ne. congruence.
  - split; reflexivity.
Qed.

(** *** [_pygments_css_class] *)

Lemma take_removelast (l : list string) (k : nat) :
  k < length l → take k (removelast l) = take k l.
Proof.
  intros Hk. rewrite removelast_firstn_len, take_take. f_equal. lia.
Qed.

Lemma length_removelast' (l : list string) : length (removelast l) = length l - 1.
Proof. rewrite removelast_firstn_len, length_take. lia. Qed.

Lemma pygments_css_class_aux_ancestor (standard_types : list string → option string)
    (r : string) :
  standard_types [] = Some r →
  ∀ fuel path, length path ≤ fuel →
  ∃ k c, pygments_css_class_aux standard_types fuel path = Ok c ∧
         k ≤ length path ∧ standard_types (take k path) = Some c ∧
         ∀ k', k < k' → k' ≤ length path → standard_types (take k' path) = None.
Proof.
  intros Hroot fuel. induction fuel as [|f IH]; intros path Hlen.
  - destruct path; [|simpl in Hlen; lia].
    exists 0, r. simpl. rewrite Hroot. repeat split; [done|]. intros; lia.
  - destruct (standard_types path) as [c|] eqn:Hp.
    + exists (length path), c. simpl. rewrite Hp. rewrite take_ge by lia.
      repeat split; [lia|done|]. intros; lia.
    + destruct path as [|x p]; [congruence|].
      destruct (IH (removelast (x :: p))) as (k & c & Hc & Hk & Hkc & Hmax).
      { rewrite length_removelast'. simpl in *. lia. }
      rewrite length_removelast' in Hk, Hmax.
      exists k, c. split; [|split; [|split]].
      * simpl. rewrite Hp. exact Hc.
      * lia.
      * rewrite take_removelast in Hkc by (simpl in *; lia). exact Hkc.
      * intros k' Hk' Hk'l.
        destruct (decide (k' = length (x :: p))) as [->|Hne].
        -- by rewrite take_ge.
        -- rewrite <- take_removelast by (simpl in *; lia). apply Hmax; simpl in *; lia.
Qed.

(** X7: when the root token has an entry in the [STANDARD_TYPES]
    table, [_pygments_css_class] never fails and returns the entry of
    the token's nearest ancestor (the token itself included) that has
    one. *)
Theorem pygments_css_class_ancestor (standard_types : list string → option string)
    (r : string) (path : list string) :
  standard_types [] = Some r →
  ∃ k c, pygments_css_class standard_types path = Ok c ∧
         k ≤ length path ∧ standard_types (take k path) = Some c ∧
         ∀ k', k < k' → k' ≤ length path → standard_types (take k' path) = None.
Proof.
  intros Hroot. apply (pygments_css_class_aux_ancestor standard_types r Hroot). lia.
Qed.

(** *** [highlight] in Pygments mode *)

Lemma map_res_pt_fragment_tokens (frs : list capture) :
  Forall (λ fr, is_token fr.1) frs →
  map_res pt_fragment frs = Ok (map (λ fr, (SStr (token_class fr.1), fr.2)) frs).
Proof.
  induction 1 as [|[[st|p] text] r Hx Hr IH]; simpl in *; [reflexivity|contradiction|].
  rewrite IH. reflexivity.
Qed.

Lemma map_res_pt_fragment_string (frs : list capture) :
  ¬ Forall (λ fr, is_token fr.1) frs →
  map_res pt_fragment frs =
    Raise (Other "TypeError" "can only concatenate tuple to tuple").
Proof.
  induction frs as [|[[st|p] text] r IH]; intros Hn; simpl.
  - exfalso. apply Hn. constructor.
  - reflexivity.
  - rewrite IH; [reflexivity|]. intros Hr. apply Hn. constructor; [exact I | exact Hr].
Qed.

(** X8: in Pygments mode [highlight] keeps the fragments of
    [_highlight] and their texts, and replaces each token style by its
    prompt_toolkit class [class:pygments.<path, lower case>]; if some
    fragment carries a string style, it raises [TypeError] instead. *)
Theorem highlight_pygments_classes (g : element) (s : string) (n : nat)
    (frs : list capture) :
  highlight_raw n true g s = Some (Ok frs) →
  (Forall (λ fr, is_token fr.1) frs →
     highlight n true g s =
       Some (Ok (map (λ fr, (SStr (token_class fr.1), fr.2)) frs))) ∧
  (¬ Forall (λ fr, is_token fr.1) frs →
     highlight n true g s =
       Some (Raise (Other "TypeError" "can only concatenate tuple to tuple"))).
Proof.
  intros Hraw. unfold highlight. rewrite Hraw. split; intros H.
  - by rewrite map_res_pt_fragment_tokens.
  - by rewrite map_res_pt_fragment_string.
Qed.

(** *** Size and contents of the reconstruction *)

Lemma sorted_locs_lookup (t : ctab) (s : string) (i b : nat) :
  sorted_locs t s !! i = Some b → b = String.length s ∨ is_Some (t !! b).
Proof.
  unfold sorted_locs. intros Hb.
  destruct (decide (i < length (capture_keys t))).
  - rewrite lookup_app_l in Hb by done. right. apply capture_keys_elem.
    by apply list_elem_of_lookup_2 with i.
  - rewrite lookup_app_r in Hb by lia. left.
    destruct (i - length (capture_keys t)); simpl in Hb; [congruence | discriminate].
Qed.

Lemma walk_step_count (d : style) (s : string) (t : ctab) (w w' : walk_state) :
  walk_count_ok s t w → walk_step d s t (sorted_locs t s) w = Next w' →
  walk_count_ok s t w'.
Proof.
  intros Hq. unfold walk_step.
  destruct (Nat.ltb_spec (w_loc w) (String.length s)) as [Hlt|]; [|discriminate].
  destruct (t !! w_loc w) as [c|] eqn:Hc.
  - intros Hs. injection Hs as <-. unfold walk_count_ok in *; simpl.
    rewrite length_app; simpl. left. destruct Hq as [?|[? _]]; lia.
  - destruct (sorted_locs t s !! w_i w) as [b|] eqn:Hb; [|discriminate].
    intros Hs. injection Hs as <-. unfold walk_count_ok in *; simpl.
    rewrite length_app; simpl.
    assert (length (w_out w) ≤ 2 * w_i w).
    { destruct Hq as [?|[_ [?|[c' ?]]]]; [done|lia|congruence]. }
    right. split; [lia|]. by apply sorted_locs_lookup with (w_i w).
Qed.

Lemma capture_keys_length (t : ctab) : length (capture_keys t) = size t.
Proof.
  unfold capture_keys.
  rewrite (Permutation_length (merge_sort_Permutation le _)), length_fmap.
  apply length_map_to_list.
Qed.

(** X9: when the captures are disjoint non-empty slices (the
    hypotheses of C1), [_highlight] returns at most [2k + 1] fragments
    for [k] captures: default fragments never follow each other. *)
Theorem highlight_fragment_count (pygments_styles : bool) (g : element)
    (s : string) (n : nat) (st : scan_state) :
  scan_string n g s = Some (Ok st) →
  captures_slices s (sc_tab st) →
  captures_disjoint (sc_tab st) →
  ∃ frs, highlight_raw (n + S (String.length s)) pygments_styles g s = Some (Ok frs) ∧
         length frs ≤ 2 * size (sc_tab st) + 1.
Proof.
  intros Hscan Hsl Hdj.
  unfold highlight_raw, scan_string in *. rewrite (run_mono _ _ _ _ Hscan).
  destruct (walk_run s (sc_tab st) (default_style pygments_styles) (λ _, True)
              Hsl Hdj I (λ _ _ _, I) (n + S (String.length s)) walk_init
              (walk_inv_init s (sc_tab st) (λ _, True) Hsl) ltac:(simpl; lia))
    as (w & Hrun & Hinv & _).
  rewrite Hrun. exists (w_out w). split; [reflexivity|].
  assert (Hc : walk_count_ok s (sc_tab st) w).
  { refine (run_invariant _ (walk_count_ok s (sc_tab st)) _ _ _ walk_init w _ Hrun).
    - intros w1 w1' Hq Hs. exact (walk_step_count _ _ _ _ _ Hq Hs).
    - intros w1 w1' Hq Hd. apply walk_step_done in Hd. by subst.
    - left. simpl. lia. }
  destruct Hinv as (_ & _ & Hi & _).
  rewrite capture_keys_length in Hi.
  destruct Hc as [?|[? _]]; lia.
Qed.

(** X12: whatever the captures (overlapping ones included), every
    fragment [_highlight] returns is either a capture of the table,
    verbatim, or a slice of the input in the default style. *)
Theorem highlight_fragment_origin (pygments_styles : bool) (g : element)
    (s : string) (n : nat) (frs : list capture) :
  highlight_raw n pygments_styles g s = Some (Ok frs) →
  ∃ st, scan_string n g s = Some (Ok st) ∧
        Forall (frag_origin s (sc_tab st) (default_style pygments_styles)) frs.
Proof.
  unfold highlight_raw. intros H.
  destruct (scan_string n g s) as [[st|e]|]; try discriminate.
  exists st. split; [reflexivity|].
  set (d := default_style pygments_styles) in *.
  set (t := sc_tab st) in *.
  destruct (run (walk_step d s t (sorted_locs t s)) n walk_init) as [[w|e]|] eqn:E;
    try discriminate.
  injection H as <-.
  refine (run_invariant _ (λ w, Forall (frag_origin s t d) (w_out w)) _ _ _
            walk_init w (Forall_nil_2 _) E).
  - intros w1 w1' Hf. unfold walk_step.
    destruct (Nat.ltb _ _); [|discriminate].
    destruct (t !! w_loc w1) as [c|] eqn:Hc.
    + intros Hs. injection Hs as <-. simpl. apply Forall_app; split; [done|].
      constructor; [|constructor]. left. by exists (w_loc w1).
    + destruct (sorted_locs t s !! w_i w1) as [b|]; [|discriminate].
      intros Hs. injection Hs as <-. simpl. apply Forall_app; split; [done|].
      constructor; [|constructor]. right. split; [reflexivity|]. eauto.
  - intros w1 w1' Hf Hd. apply walk_step_done in Hd. by subst.
Qed.

(** *** [lex_document] *)

Lemma split_nl_aux_prefix (s c d : string) :
  split_nl_aux s (c ++ d) = prefix_first c (split_nl_aux s d).
Proof.
  revert d. induction s as [|x r IH]; intros d; simpl; [reflexivity|].
  destruct (Ascii.eqb x "010"%char); [reflexivity|].
  rewrite string_app_assoc. apply IH.
Qed.

Lemma split_nl_aux_nonempty (s cur : string) : split_nl_aux s cur ≠ [].
Proof.
  revert cur. induction s as [|x r IH]; intros cur; simpl; [discriminate|].
  destruct (Ascii.eqb x "010"%char); [discriminate | apply IH].
Qed.

Lemma split_nl_aux_app (a b cur : string) :
  split_nl_aux (a ++ b) cur =
    (removelast (split_nl_aux a cur) ++ split_nl_aux b (List.last (split_nl_aux a cur) ""))%list.
Proof.
  revert cur. induction a as [|x r IH]; intros cur; cbn [String.append split_nl_aux];
    [reflexivity|].
  destruct (Ascii.eqb x "010"%char).
  - rewrite IH. pose proof (split_nl_aux_nonempty r "") as Hne.
    destruct (split_nl_aux r "") as [|y ys]; [congruence | reflexivity].
  - apply IH.
Qed.

Lemma emit_parts_cons (sty : style) (p q : string) (r : list string)
    (line : list capture) :
  emit_parts sty (p :: q :: r) line =
    let '(ls, l) := emit_parts sty (q :: r) [] in
    ((if String.eqb p "" then line else (line ++ [(sty, p)])%list) :: ls, l).
Proof. reflexivity. Qed.

Lemma emit_parts_texts (sty : style) (ps : list string) :
  ps ≠ [] → ∀ line ls l, emit_parts sty ps line = (ls, l) →
  (map texts ls ++ [texts l])%list = prefix_first (texts line) ps.
Proof.
  induction ps as [|p r IH]; intros Hne line ls l He; [congruence|].
  destruct r as [|q r'].
  - simpl in He. injection He as <- <-. simpl. by rewrite texts_snoc.
  - rewrite emit_parts_cons in He.
    destruct (emit_parts sty (q :: r') []) as [ls' l'] eqn:E.
    injection He as <- <-.
    specialize (IH ltac:(discriminate) [] ls' l' E). simpl in IH.
    simpl. rewrite IH. f_equal.
    destruct (String.eqb_spec p ""); [subst; by rewrite string_app_nil_r|].
    apply texts_snoc.
Qed.

Lemma split_lines_aux_texts (frs : list capture) (line : list capture) :
  map texts (split_lines_aux frs line) = split_nl_aux (texts frs) (texts line).
Proof.
  revert line. induction frs as [|[sty str] r IH]; intros line; [reflexivity|].
  cbn [split_lines_aux].
  destruct (emit_parts sty (split_nl str) line) as [ls l] eqn:E.
  rewrite map_app, IH.
  change (texts ((sty, str) :: r)) with (str ++ texts r).
  rewrite split_nl_aux_app.
  assert (Hp : split_nl_aux str (texts line) = (map texts ls ++ [texts l])%list).
  { rewrite <- (string_app_nil_r (texts line)), split_nl_aux_prefix.
    symmetry. apply (emit_parts_texts sty (split_nl str)); [apply split_nl_aux_nonempty|].
    exact E. }
  rewrite Hp, removelast_last, List.last_last. reflexivity.
Qed.

Lemma split_nl_aux_join (s cur : string) : join nl (split_nl_aux s cur) = cur ++ s.
Proof.
  revert cur. induction s as [|x r IH]; intros cur; cbn [split_nl_aux].
  - simpl. by rewrite string_app_nil_r.
  - destruct (Ascii.eqb_spec x "010"%char) as [->|Hx].
    + pose proof (split_nl_aux_nonempty r "") as Hne.
      destruct (split_nl_aux r "") as [|y ys] eqn:E; [congruence|].
      change (join nl (cur :: y :: ys)) with (cur ++ nl ++ join nl (y :: ys)).
      rewrite <- E, IH. reflexivity.
    + rewrite IH, string_app_assoc. reflexivity.
Qed.

Lemma split_nl_aux_length (s cur : string) :
  length (split_nl_aux s cur) = S (count_nl s).
Proof.
  revert cur. induction s as [|x r IH]; intros cur; simpl; [reflexivity|].
  destruct (Ascii.eqb x "010"%char); simpl; by rewrite IH.
Qed.

Lemma count_nl_app (a b : string) : count_nl (a ++ b) = count_nl a + count_nl b.
Proof.
  induction a as [|x r IH]; cbn [String.append count_nl]; [reflexivity|].
  destruct (Ascii.eqb x "010"%char); lia.
Qed.

Lemma split_nl_aux_no_nl (s cur : string) :
  count_nl cur = 0 → ∀ x, x ∈ split_nl_aux s cur → count_nl x = 0.
Proof.
  revert cur. induction s as [|c r IH]; intros cur Hcur x Hx; simpl in Hx.
  - apply list_elem_of_singleton in Hx. by subst.
  - destruct (Ascii.eqb c "010"%char) eqn:Ec.
    + apply elem_of_cons in Hx as [->|Hx]; [done|]. by apply (IH "").
    + apply (IH (cur ++ String c "")); [|done].
      rewrite count_nl_app. simpl. rewrite Ec. lia.
Qed.

Lemma split_lines_texts (frs : list capture) :
  map texts (split_lines frs) = split_nl (texts frs).
Proof. apply (split_lines_aux_texts frs []). Qed.

Lemma split_lines_length (frs : list capture) :
  length (split_lines frs) = S (count_nl (texts frs)).
Proof.
  rewrite <- (length_map texts (split_lines frs)), split_lines_texts.
  apply split_nl_aux_length.
Qed.

Lemma lookup_map_Some {A B} (f : A → B) (l : list A) (i : nat) (x : A) :
  l !! i = Some x → map f l !! i = Some (f x).
Proof.
  revert i. induction l as [|y r IH]; intros i Hi; [discriminate|].
  destruct i; simpl in *; [congruence | auto].
Qed.

(** X10: prompt_toolkit's [split_lines] on the fragments cuts their
    texts at each newline: joining the line texts with ['\n'] gives
    back the concatenated texts, there is one line more than there
    are newlines, and no line contains a newline. *)
Theorem split_lines_round_trip (frs : list capture) :
  join nl (map texts (split_lines frs)) = texts frs ∧
  length (split_lines frs) = S (count_nl (texts frs)) ∧
  Forall (λ line, count_nl (texts line) = 0) (split_lines frs).
Proof.
  split; [|split].
  - rewrite split_lines_texts. apply split_nl_aux_join.
  - apply split_lines_length.
  - apply Forall_forall. intros line Hin.
    apply (split_nl_aux_no_nl (texts frs) ""%string eq_refl).
    change (split_nl_aux (texts frs) "") with (split_nl (texts frs)).
    rewrite <- split_lines_texts.
    apply list_elem_of_In. apply in_map. by apply list_elem_of_In.
Qed.

(** X11: when [highlight] succeeds, [lex_document] returns a getter
    whose line [i] is, for [i] up to the number of newlines, fragments
    spelling the [i]-th newline-separated piece of the highlighted
    text, and which raises [IndexError] past the last line. *)
Theorem lex_document_lines (fuel : nat) (pygments_styles : bool) (g : element)
    (text : string) (frs : list capture) :
  highlight fuel pygments_styles g text = Some (Ok frs) →
  ∃ get, lex_document fuel pygments_styles g text = Some (Ok get) ∧
    (∀ i, i ≤ count_nl (texts frs) →
       ∃ line, get i = Ok line ∧ split_nl (texts frs) !! i = Some (texts line)) ∧
    (∀ i, count_nl (texts frs) < i →
       get i = Raise (Other "IndexError" "list index out of range")).
Proof.
  intros Hh. unfold lex_document. rewrite Hh. eexists; split; [reflexivity|].
  pose proof (split_lines_length frs) as Hlen.
  split.
  - intros i Hi.
    destruct (lookup_lt_is_Some_2 (split_lines frs) i ltac:(lia)) as [line Hl].
    exists line. rewrite Hl. split; [reflexivity|].
    rewrite <- split_lines_texts. by apply lookup_map_Some.
  - intros i Hi. destruct (split_lines frs !! i) eqn:E; [|reflexivity].
    apply lookup_lt_Some in E. lia.
Qed.

(** *** Witnesses *)

(** X1 witness: ["int 42"] has nothing to escape. *)
Lemma html_escape_safe_witness : html_escape "int 42" = "int 42".
Proof. apply (proj2 (html_escape_safe "int 42")). reflexivity. Defined.

(** X2 witness: [styler('bold', pp.Word(pp.nums))] on ["a 42"]. *)
Lemma html_unclassed_text_witness :
  highlight_html 9 false (λ _, None) bold_digits "a 42" =
    Some (Ok ("<span class=" ++ dq ++ "highlight" ++ dq ++ ">"
              ++ html_escape (texts [(SStr "", "a "); (SStr "bold", "42")])
              ++ "</span>")).
Proof.
  apply (html_unclassed_text (λ _, None) bold_digits "a 42" 9
           [(SStr "", "a "); (SStr "bold", "42")]).
  - vm_compute. reflexivity.
  - apply Forall_cons; split; [|apply Forall_cons; split; [|apply Forall_nil_2]].
    all: eexists; split; [reflexivity | left; vm_compute; reflexivity].
Defined.

(** X3 witness: [pp.Word(pp.nums)] ignoring a raising ['#'] on ["12"],
    where the ignorable never occurs. *)
Lemma scan_terminates_witness :
  ∃ st, scan_string (String.length "12" + 2) digits_ignoring_hash "12" = Some (Ok st) ∧
        String.length "12" < sc_loc st.
Proof.
  apply (scan_terminates digits_ignoring_hash "12").
  intros loc t Hle. destruct loc as [|[|[|loc]]].
  1-3: eexists _, _; split; [reflexivity | vm_compute; lia].
  simpl in Hle. lia.
Defined.

(** X4 witness: [styler('class:int', pp.Word(pp.nums))] on ["a 42"]. *)
Lemma default_skip_scan_terminates_witness :
  ∃ st, scan_string (String.length "a 42" + 2) int_grammar "a 42" = Some (Ok st) ∧
        String.length "a 42" < sc_loc st.
Proof.
  apply (default_skip_scan_terminates int_grammar "a 42" true default_white).
  reflexivity.
Defined.

(** A styled [pp.Word] fails only with [ParseException]: its word
    fails so, and the end offset it appends is always there to pop. *)
Lemma styler_word_raises (sty : style) (p : ascii → bool) (s : string) (loc : nat)
    (t : ctab) (e : exn) (t' : ctab) :
  parse (styler sty (word p)) s loc false t = (Raise e, t') →
  is_parse_base e = true.
Proof.
  cbv [parse bind ret styler word parse_body pre_parse parse_exception raise].
  destruct (Nat.ltb 0 (run_length p s loc (String.length s))).
  - rewrite pop_loc_snoc. discriminate.
  - intros H. injection H as <- _. reflexivity.
Qed.

(** X5 witness: [styler('class:int', pp.Word(pp.nums))] on ["a 42"]. *)
Lemma scan_parse_failures_silent_witness :
  sc_warnings (ScanState 5 (Some 4) {[2 := (SStr "class:int", "42")]} []) = [].
Proof.
  apply (scan_parse_failures_silent int_grammar "a 42" 5).
  - intros loc t e t' H. discriminate H.
  - intros loc t e t'. apply styler_word_raises.
  - exact int_grammar_scan.
Defined.

(** X7 witness: [Token.Name.Builtin.Pseudo] with a table holding
    [Token] and [Token.Name] resolves to the class of [Token.Name]. *)
Lemma pygments_css_class_ancestor_witness :
  ∃ k c, pygments_css_class pygments_types_sample ["Name"; "Builtin"; "Pseudo"] = Ok c ∧
         k ≤ length ["Name"; "Builtin"; "Pseudo"] ∧
         pygments_types_sample (take k ["Name"; "Builtin"; "Pseudo"]) = Some c ∧
         ∀ k', k < k' → k' ≤ length ["Name"; "Builtin"; "Pseudo"] →
           pygments_types_sample (take k' ["Name"; "Builtin"; "Pseudo"]) = None.
Proof.
  apply (pygments_css_class_ancestor pygments_types_sample "" ["Name"; "Builtin"; "Pseudo"]).
  vm_compute. reflexivity.
Defined.

(** X8 witness: [styler(Token.Literal.Number.Integer, pp.Word(pp.nums))]
    on ["a 42"] in Pygments mode. *)
Lemma highlight_pygments_classes_witness :
  highlight 9 true pyg_int_grammar "a 42" =
    Some (Ok (map (λ fr, (SStr (token_class fr.1), fr.2))
                [(SToken ["Text"], "a "); (SToken ["Literal"; "Number"; "Integer"], "42")])).
Proof.
  apply (proj1 (highlight_pygments_classes pyg_int_grammar "a 42" 9
           [(SToken ["Text"], "a "); (SToken ["Literal"; "Number"; "Integer"], "42")]
           ltac:(vm_compute; reflexivity))).
  repeat constructor.
Defined.

(** X9 witness: the digit-run grammar on ["a 42"]. *)
Lemma highlight_fragment_count_witness :
  ∃ frs, highlight_raw (5 + S (String.length "a 42")) false int_grammar "a 42" =
           Some (Ok frs) ∧
         length frs ≤
           2 * size (sc_tab (ScanState 5 (Some 4) {[2 := (SStr "class:int", "42")]} [])) + 1.
Proof.
  apply (highlight_fragment_count false int_grammar "a 42" 5
           (ScanState 5 (Some 4) {[2 := (SStr "class:int", "42")]} [])).
  - exact int_grammar_scan.
  - exact int_grammar_slices.
  - exact int_grammar_disjoint.
Defined.

(** X11 witness: the digit-run grammar on ["1\n2"]. *)
Lemma lex_document_lines_witness :
  let frs := [(SStr "class:int", "1"); (SStr "", nl); (SStr "class:int", "2")] in
  ∃ get, lex_document 5 false int_grammar ("1" ++ nl ++ "2") = Some (Ok get) ∧
    (∀ i, i ≤ count_nl (texts frs) →
       ∃ line, get i = Ok line ∧ split_nl (texts frs) !! i = Some (texts line)) ∧
    (∀ i, count_nl (texts frs) < i →
       get i = Raise (Other "IndexError" "list index out of range")).
Proof.
  intros frs.
  apply (lex_document_lines 5 false int_grammar ("1" ++ nl ++ "2") frs).
  vm_compute. reflexivity.
Defined.

(** X12 witness: the nested grammar on ["abcd"], whose captures
    overlap. *)
Lemma highlight_fragment_origin_witness :
  ∃ st, scan_string 10 nested_grammar "abcd" = Some (Ok st) ∧
        Forall (frag_origin "abcd" (sc_tab st) (default_style false))
          [(SStr "outer", "abc"); (SStr "", ""); (SStr "inner", "b"); (SStr "", "cd")].
Proof.
  apply (highlight_fragment_origin false nested_grammar "abcd" 10).
  vm_compute. reflexivity.
Defined.
